(** * Universal-Page/cli: the metadata-generation pipeline

    A shallow embedding of [src/commands/metadata/generate.ts] and of
    [src/common/validators.ts]: the filename patterns, the two directory
    scanners, the media descriptor builder, the metadata assembler and the
    base-URI validator, with the properties the specification states about
    them; and of the command that runs them and the shell that dispatches
    the commands (the entry module, [help] and [quit]), with further
    properties of the code.

    JavaScript strings are modelled by [string]; regular expressions by a
    small backtracking matcher in the style of the ECMAScript semantics;
    numbers by IEEE-754 binary64 values ([spec_float]); promises by a
    sequential error-and-trace monad. *)

From Stdlib Require Import Bool Arith Lia List ZArith NArith.
From Stdlib Require Import Ascii String.
From Stdlib Require Import Floats.SpecFloat.
Import ListNotations.
Open Scope string_scope.

Set Implicit Arguments.

(* ================================================================= *)
(** ** Strings *)

Fixpoint forall_chars (p : ascii -> bool) (s : string) : bool :=
  match s with
  | EmptyString => true
  | String c s' => p c && forall_chars p s'
  end.

Fixpoint drop (n : nat) (s : string) : string :=
  match n, s with
  | O, _ => s
  | S n', EmptyString => EmptyString
  | S n', String _ s' => drop n' s'
  end.

Definition take (n : nat) (s : string) : string := substring 0 n s.

Definition in_range (lo hi c : ascii) : bool :=
  Nat.leb (nat_of_ascii lo) (nat_of_ascii c)
  && Nat.leb (nat_of_ascii c) (nat_of_ascii hi).

(* ================================================================= *)
(** ** Regular expressions

    The fragment of ECMAScript patterns the sources use: character classes,
    sequence, ordered alternation, greedy repetition, capture groups and the
    two anchors.  There is no flag on any pattern of the sources, so [^] and
    [$] are the start and the end of the input. *)

Inductive regex : Type :=
| Empty
| Class (p : ascii -> bool)
| Seq (r1 r2 : regex)
| Alt (r1 r2 : regex)
| Star (r : regex)
| Group (i : nat) (r : regex)
| Bol
| Eol.

Fixpoint Lit (s : string) : regex :=
  match s with
  | EmptyString => Empty
  | String c s' => Seq (Class (Ascii.eqb c)) (Lit s')
  end.

Fixpoint Repeat (n : nat) (r : regex) : regex :=
  match n with
  | O => Empty
  | S n' => Seq r (Repeat n' r)
  end.

(** [r{n,}] *)
Definition AtLeast (n : nat) (r : regex) : regex := Seq (Repeat n r) (Star r).
(** [r+] *)
Definition Plus (r : regex) : regex := AtLeast 1 r.
(** [r?] *)
Definition Opt (r : regex) : regex := Alt r Empty.

Definition captures := list (nat * string).

Fixpoint capture (i : nat) (cs : captures) : option string :=
  match cs with
  | [] => None
  | (j, s) :: cs' => if Nat.eqb i j then Some s else capture i cs'
  end.

(** A matcher state: the index reached in the input, what is left of the
    input from there, and the captures so far. *)
Record mstate : Type := MState {
  pos : nat;
  rest : string;
  caps : captures
}.

Definition set_cap (i : nat) (from to : mstate) : mstate :=
  MState (pos to) (rest to)
         ((i, take (pos to - pos from) (rest from)) :: caps to).

(** The backtracking matcher, in continuation-passing style: [k] is what
    remains of the pattern.  An iteration of [Star] that consumes nothing is
    refused, as ECMAScript's RepeatMatcher does. *)
Fixpoint rmatch (r : regex) (st : mstate) (k : mstate -> option mstate)
  : option mstate :=
  match r with
  | Empty => k st
  | Class p =>
      match rest st with
      | String c s' =>
          if p c then k (MState (S (pos st)) s' (caps st)) else None
      | EmptyString => None
      end
  | Seq r1 r2 => rmatch r1 st (fun st1 => rmatch r2 st1 k)
  | Alt r1 r2 =>
      match rmatch r1 st k with
      | Some res => Some res
      | None => rmatch r2 st k
      end
  | Star r1 =>
      (fix loop (fuel : nat) (st0 : mstate) {struct fuel} : option mstate :=
         match fuel with
         | O => k st0
         | S fuel' =>
             match rmatch r1 st0
                     (fun st1 => if Nat.ltb (pos st0) (pos st1) then loop fuel' st1
                                 else None) with
             | Some res => Some res
             | None => k st0
             end
         end) (String.length (rest st)) st
  | Group i r1 => rmatch r1 st (fun st1 => k (set_cap i st st1))
  | Bol => if Nat.eqb (pos st) 0 then k st else None
  | Eol => match rest st with EmptyString => k st | String _ _ => None end
  end.

(** What [RegExp.prototype.exec] returns on a match: where the match starts,
    the matched text and the captures. *)
Record match_result : Type := MatchResult {
  match_index : nat;
  match_text : string;
  match_groups : captures
}.

Definition match_at (r : regex) (s : string) (i : nat) : option match_result :=
  let start := MState i (drop i s) [] in
  match rmatch r start Some with
  | Some st => Some (MatchResult i (take (pos st - i) (drop i s)) (caps st))
  | None => None
  end.

Fixpoint exec_from (r : regex) (s : string) (i n : nat) : option match_result :=
  match match_at r s i with
  | Some m => Some m
  | None =>
      match n with
      | O => None
      | S n' => exec_from r s (S i) n'
      end
  end.

(** [r.exec(s)] for a pattern without the global or sticky flag: the match
    at the leftmost start index that has one. *)
Definition exec (r : regex) (s : string) : option match_result :=
  exec_from r s 0 (String.length s).

Definition digit : ascii -> bool := in_range "0" "9".
Definition lower : ascii -> bool := in_range "a" "z".

(** *** A declarative reading of the patterns *)

(** [path r a b]: the pattern [r] can take the matcher from [a] to [b]. *)
Inductive path : regex -> mstate -> mstate -> Prop :=
| path_Empty a : path Empty a a
| path_Class p a c s :
    rest a = String c s -> p c = true ->
    path (Class p) a (MState (S (pos a)) s (caps a))
| path_Seq r1 r2 a b c :
    path r1 a b -> path r2 b c -> path (Seq r1 r2) a c
| path_AltL r1 r2 a b : path r1 a b -> path (Alt r1 r2) a b
| path_AltR r1 r2 a b : path r2 a b -> path (Alt r1 r2) a b
| path_StarStop r a : path (Star r) a a
| path_StarStep r a b c :
    path r a b -> pos a < pos b -> path (Star r) b c -> path (Star r) a c
| path_Group i r a b : path r a b -> path (Group i r) a (set_cap i a b)
| path_Bol a : pos a = 0 -> path Bol a a
| path_Eol a : rest a = "" -> path Eol a a.

Create HintDb regex.
#[local] Hint Constructors path : regex.

(** [consumes w a b]: from [a] to [b] the matcher read [w] and captured
    nothing. *)
Definition consumes (w : string) (a b : mstate) : Prop :=
  rest a = w ++ rest b /\ pos b = pos a + String.length w /\ caps b = caps a.

(* ================================================================= *)
(** ** Numbers

    A JavaScript number is an IEEE-754 binary64 value. *)

Definition number : Type := spec_float.

Definition prec : Z := 53.
Definition emax : Z := 1024.

(** [x === y] on numbers: NaN differs from itself, the two zeros are equal. *)
Definition number_eqb (x y : number) : bool := SFeqb x y.

(** ToBoolean on numbers. *)
Definition number_truthy (x : number) : bool :=
  match x with
  | S754_zero _ | S754_nan => false
  | _ => true
  end.

Definition digit_value (c : ascii) : N := N_of_ascii c - 48.

Fixpoint decimal_value_from (acc : N) (s : string) : N :=
  match s with
  | EmptyString => acc
  | String c s' => decimal_value_from (10 * acc + digit_value c) s'
  end.

(** The mathematical value of a string of decimal digits. *)
Definition decimal_value (s : string) : N := decimal_value_from 0 s.

Definition number_of_Z (z : Z) : number := binary_normalize prec emax z 0 false.

(** [Number(s)] for the strings the patterns hand to it, the captures of a
    [\d+] group: the mathematical value rounded to the nearest binary64,
    ties to even.  (The empty string gives 0; a string with any other
    character is outside what the sources pass and is mapped to NaN.) *)
Definition js_Number (s : string) : number :=
  if forall_chars digit s then number_of_Z (Z.of_N (decimal_value s))
  else S754_nan.

(** The integer a number denotes, when it denotes one. *)
Definition integer_value (x : number) : option Z :=
  match x with
  | S754_zero _ => Some 0%Z
  | S754_finite s m e =>
      let v := if (0 <=? e)%Z then Some (Zpos m * 2 ^ e)%Z
               else if (Zpos m mod 2 ^ (- e) =? 0)%Z
                    then Some (Zpos m / 2 ^ (- e))%Z else None in
      match v with
      | Some z => Some (if s then (- z)%Z else z)
      | None => None
      end
  | _ => None
  end.

Definition digit_char (d : N) : ascii := ascii_of_N (48 + d).

Fixpoint digits_of (fuel : nat) (n : N) (acc : string) : string :=
  match fuel with
  | O => acc
  | S fuel' =>
      let acc' := String (digit_char (n mod 10)) acc in
      if (n / 10 =? 0)%N then acc' else digits_of fuel' (n / 10) acc'
  end.

(** The decimal numeral of a natural number, without leading zeros. *)
Definition decimal_string (n : N) : string :=
  digits_of (S (N.to_nat (N.log2 n))) n "".

Fixpoint zeros (n : nat) : string :=
  match n with
  | O => ""
  | S n' => String "0" (zeros n')
  end.

(** *** Number::toString, radix 10

    For a finite non-zero [x = m * 2^e] ECMAScript picks integers [n], [k]
    and [s] with [10^(k-1) <= s < 10^k], [s * 10^(n-k)] rounding to [x] and
    [k] as small as possible (the closest such [s] when there are several),
    and prints the [k] digits of [s] placed by [n]. *)

(** [x = num / den], both positive. *)
Definition fraction (m : positive) (e : Z) : Z * Z :=
  if (0 <=? e)%Z then (Zpos m * 2 ^ e, 1)%Z else (Zpos m, 2 ^ (- e))%Z.

Fixpoint scale_up (fuel : nat) (p q : Z) (i : Z) : Z :=
  match fuel with
  | O => i
  | S fuel' => if (q <=? p * 10 ^ i)%Z then i else scale_up fuel' p q (i + 1)
  end.

(** The [n] with [10^(n-1) <= p/q < 10^n]. *)
Definition decimal_exponent (p q : Z) : Z :=
  if (q <=? p)%Z
  then Z.of_nat (String.length (decimal_string (Z.to_N (p / q))))
  else (1 - scale_up 400 p q 1)%Z.

(** Whether [s * 10^t] rounds to [m * 2^e]: it lies between the midpoints
    to the two neighbouring binary64 values, a midpoint itself counting
    when [m] is even. *)
Definition rounds_to (m : positive) (e : Z) (s t : Z) : bool :=
  let emin := (3 - emax - prec)%Z in
  let lowU := if (Zpos m =? 2 ^ (prec - 1))%Z && (emin <? e)%Z
              then (4 * Zpos m - 1)%Z else (4 * Zpos m - 2)%Z in
  let highU := (4 * Zpos m + 2)%Z in
  let '(unit_num, unit_den) := fraction 1 (e - 2) in
  let '(v_num, v_den) :=
    if (0 <=? t)%Z then (s * 10 ^ t, 1)%Z else (s, 10 ^ (- t))%Z in
  let lhs := (v_num * unit_den)%Z in
  let lo := (lowU * unit_num * v_den)%Z in
  let hi := (highU * unit_num * v_den)%Z in
  if Z.even (Zpos m) then (lo <=? lhs)%Z && (lhs <=? hi)%Z
  else (lo <? lhs)%Z && (lhs <? hi)%Z.

(** The candidates with [k] digits: the multiples of [10^(n-k)] just below
    and just above [p/q], the closer one first. *)
Definition candidates (p q n k : Z) : list Z :=
  let t := (n - k)%Z in
  let '(a, b) := if (0 <=? t)%Z then (p, q * 10 ^ t)%Z
                 else (p * 10 ^ (- t), q)%Z in
  let s := (a / b)%Z in
  let r := (a mod b)%Z in
  if (2 * r <? b)%Z then [s; (s + 1)%Z]
  else if (b <? 2 * r)%Z then [(s + 1)%Z; s]
  else if Z.even s then [s; (s + 1)%Z] else [(s + 1)%Z; s].

Fixpoint shortest (fuel : nat) (m : positive) (e : Z) (p q n k : Z)
  : Z * Z :=
  let t := (n - k)%Z in
  let ok := filter (fun s => rounds_to m e s t) (candidates p q n k) in
  match ok, fuel with
  | s :: _, _ => if (s =? 10 ^ k)%Z then (10 ^ (k - 1), n + 1)%Z else (s, n)
  | [], S fuel' => shortest fuel' m e p q n (k + 1)
  | [], O => (fst (fraction m e) / snd (fraction m e), n)%Z
  end.

Definition place_digits (ds : string) (n : Z) : string :=
  let k := Z.of_nat (String.length ds) in
  if (k <=? n)%Z && (n <=? 21)%Z then ds ++ zeros (Z.to_nat (n - k))
  else if (0 <? n)%Z && (n <=? 21)%Z
       then take (Z.to_nat n) ds ++ "." ++ drop (Z.to_nat n) ds
  else if (-6 <? n)%Z && (n <=? 0)%Z
       then "0." ++ zeros (Z.to_nat (- n)) ++ ds
  else
    let ex := (n - 1)%Z in
    let sign := if (ex <? 0)%Z then "-" else "+" in
    let mant := match ds with
                | String d EmptyString => ds
                | String d ds' => String d ("." ++ ds')
                | EmptyString => ds
                end in
    mant ++ "e" ++ sign ++ decimal_string (Z.to_N (Z.abs ex)).

Definition Number_toString (x : number) : string :=
  match x with
  | S754_nan => "NaN"
  | S754_zero _ => "0"
  | S754_infinity s => if s then "-Infinity" else "Infinity"
  | S754_finite sg m e =>
      let '(p, q) := fraction m e in
      let n := decimal_exponent p q in
      let '(s, n') := shortest 17 m e p q n 1 in
      (if sg then "-" else "") ++ place_digits (decimal_string (Z.to_N s)) n'
  end.

(* ================================================================= *)
(** ** Values, errors and effects *)

(** What [JSON.parse] returns, what an inquirer prompt hands to its
    validator, and what [JSON.stringify] is given. *)
#[warnings="-register-all"]
Inductive value : Type :=
| VUndefined
| VNull
| VBool (b : bool)
| VNum (x : number)
| VStr (s : string)
| VArr (items : list value)
| VObj (fields : list (string * value)).

(** ToBoolean. *)
Definition truthy (v : value) : bool :=
  match v with
  | VUndefined | VNull => false
  | VBool b => b
  | VNum x => number_truthy x
  | VStr s => negb (String.eqb s "")
  | VArr _ | VObj _ => true
  end.

Fixpoint lookup (key : string) (fields : list (string * value)) : value :=
  match fields with
  | [] => VUndefined
  | (k, v) :: fields' => if String.eqb key k then v else lookup key fields'
  end.

(** [v?.key], for the keys the sources read ([name], [image],
    [description], [attributes], [trait_type], [value]): none of them is a
    property of a primitive's or an array's prototype. *)
Definition get_opt (v : value) (key : string) : value :=
  match v with
  | VObj fields => lookup key fields
  | _ => VUndefined
  end.

Inductive error : Type :=
| Error (message : string)
| TypeError (message : string).

Inductive result (A : Type) : Type :=
| Ok (a : A)
| Throw (e : error).
Arguments Ok {A} a.
Arguments Throw {A} e.

(** [v.key]: as [v?.key], but reading a property of [undefined] or [null]
    throws. *)
Definition get (v : value) (key : string) : result value :=
  match v with
  | VUndefined | VNull =>
      Throw (TypeError ("Cannot read properties of undefined or null (reading '"
                        ++ key ++ "')"))
  | _ => Ok (get_opt v key)
  end.

(** What a run does to the outside, in order.  [ConsoleWarn text] is
    [console.warn(chalk.yellowBright(text))]; the progress events are the
    calls on the [cliProgress.SingleBar]. *)
Inductive event : Type :=
| ConsoleWarn (text : string)
| ConsoleError (e : error)
| Mkdir (path : string)
| WriteFile (path data : string)
| ProgressStart (total : nat) (startValue : nat)
| ProgressIncrement
| ProgressStop.

(** An (awaited) computation: the events it emitted and how it ended. *)
Definition M (A : Type) : Type := list event * result A.

Definition ret {A} (a : A) : M A := ([], Ok a).
Definition throw {A} (e : error) : M A := ([], Throw e).
Definition emit (ev : event) : M unit := ([ev], Ok tt).
Definition lift {A} (r : result A) : M A := ([], r).

Definition bind {A B} (m : M A) (f : A -> M B) : M B :=
  match m with
  | (t, Ok a) => let (t', r) := f a in ((t ++ t')%list, r)
  | (t, Throw e) => (t, Throw e)
  end.

Notation "x <- m ;; k" := (bind m (fun x => k))
  (at level 61, m at next level, right associativity).
Notation "m ;;; k" := (bind m (fun _ => k))
  (at level 61, right associativity).

(** [try { m } catch (e) { h e }] *)
Definition try_catch {A} (m : M A) (h : error -> M A) : M A :=
  match m with
  | (t, Ok a) => (t, Ok a)
  | (t, Throw e) => let (t', r) := h e in ((t ++ t')%list, r)
  end.

(** [try { m } finally { fin }] *)
Definition try_finally {A} (m : M A) (fin : M unit) : M A :=
  let (t, r) := m in
  match fin with
  | (t', Ok _) => ((t ++ t')%list, r)
  | (t', Throw e) => ((t ++ t')%list, Throw e)
  end.

Definition trace {A} (m : M A) : list event := fst m.
Definition outcome {A} (m : M A) : result A := snd m.

Definition isIncrement (ev : event) : bool :=
  match ev with ProgressIncrement => true | _ => false end.

Definition isWrite (ev : event) : bool :=
  match ev with WriteFile _ _ => true | _ => false end.

Definition countEvents (p : event -> bool) (t : list event) : nat :=
  List.length (filter p t).

Fixpoint mapM {A B} (f : A -> M B) (l : list A) : M (list B) :=
  match l with
  | [] => ret []
  | a :: l' => b <- f a ;; bs <- mapM f l' ;; ret (b :: bs)
  end.

Definition bytes : Type := list Byte.byte.

Record ImageMetadata : Type := {
  meta_width : option number;
  meta_height : option number
}.

(** The libraries the sources call: Node's [path] and [fs/promises],
    [JSON], [sharp], [keccak256].  A call that rejects or throws is a
    [Throw].  What is read is a function of the path: a run reads the two
    input directories and writes only under its fresh output directory.
    A [mkdir] or [writeFile] that succeeds is recorded as an event by its
    caller. *)
Record Platform : Type := {
  path_join : string -> string -> string;
  path_normalize : string -> string;
  path_basename : string -> string;
  readdir : string -> result (list string);
  readFile : string -> result bytes;
  utf8_decode : bytes -> string;
  mkdir : string -> result unit;
  writeFile : string -> string -> result unit;
  JSON_parse : string -> result value;
  JSON_stringify : value -> string;
  sharp_metadata : string -> result ImageMetadata;
  keccak256 : bytes -> bytes
}.

Definition hex_digit (n : N) : ascii :=
  if (n <? 10)%N then ascii_of_N (48 + n) else ascii_of_N (87 + n).

(** [Buffer.prototype.toString('hex')] *)
Fixpoint hex (bs : bytes) : string :=
  match bs with
  | [] => ""
  | b :: bs' =>
      let n := Byte.to_N b in
      String (hex_digit (n / 16)) (String (hex_digit (n mod 16)) (hex bs'))
  end.

(* ================================================================= *)
(** ** generate.ts: data *)

(** [OpenSeaToken]; [metadata] is whatever [JSON.parse] returned. *)
Record OpenSeaToken : Type := {
  token_file : string;
  token_index : number;
  token_metadata : value
}.

Inductive MediaCategory : Type := image | asset | icon.

Definition MediaCategory_eqb (a b : MediaCategory) : bool :=
  match a, b with
  | image, image | asset, asset | icon, icon => true
  | _, _ => false
  end.

Definition MediaCategory_of_string (s : string) : option MediaCategory :=
  if String.eqb s "image" then Some image
  else if String.eqb s "asset" then Some asset
  else if String.eqb s "icon" then Some icon
  else None.

Record MediaFileInfo : Type := {
  media_file : string;
  media_category : MediaCategory;
  media_index : number;
  media_extension : string
}.

(** What [buildFileInfo] resolves to for an image. *)
Record FileInfo : Type := {
  width : number;
  height : number;
  hashFunction : string;
  hash : string;
  url : string
}.

Record Link : Type := {
  link_title : string;
  link_url : string
}.

(** The object under the [LSP4Metadata] key.  A field that is [undefined]
    in the source is [VUndefined] or [None] here. *)
Record LSP4Metadata : Type := {
  lsp4_name : value;
  lsp4_description : value;
  lsp4_attributes : value;
  lsp4_icon : option FileInfo;
  lsp4_images : option (list (list (option FileInfo)));
  lsp4_links : option (list Link)
}.

Definition value_of_FileInfo (o : option FileInfo) : value :=
  match o with
  | Some d =>
      VObj [("width", VNum (width d)); ("height", VNum (height d));
            ("hashFunction", VStr (hashFunction d)); ("hash", VStr (hash d));
            ("url", VStr (url d))]
  | None => VUndefined
  end.

Definition value_of_Link (l : Link) : value :=
  VObj [("title", VStr (link_title l)); ("url", VStr (link_url l))].

Definition value_of_option {A} (f : A -> value) (o : option A) : value :=
  match o with
  | Some a => f a
  | None => VUndefined
  end.

(** The object handed to [JSON.stringify]. *)
Definition value_of_metadata (md : LSP4Metadata) : value :=
  VObj [("LSP4Metadata",
         VObj [("name", lsp4_name md);
               ("description", lsp4_description md);
               ("attributes", lsp4_attributes md);
               ("icon", value_of_FileInfo (lsp4_icon md));
               ("images",
                value_of_option
                  (fun groups =>
                     VArr (map (fun g => VArr (map value_of_FileInfo g)) groups))
                  (lsp4_images md));
               ("links",
                value_of_option (fun ls => VArr (map value_of_Link ls))
                                (lsp4_links md))])].

(* ================================================================= *)
(** ** generate.ts: the filename patterns *)

(** [/^(\d+)\.json$/] *)
Definition tokenMetadataNamePattern : regex :=
  Seq Bol (Seq (Group 1 (Plus (Class digit))) (Seq (Lit ".json") Eol)).

(** [/^(?:(image|asset|icon)-)?(\d+)\.([a-z]+)$/] *)
Definition mediaNamePattern : regex :=
  Seq Bol
   (Seq (Opt (Seq (Group 1 (Alt (Lit "image") (Alt (Lit "asset") (Lit "icon"))))
                  (Lit "-")))
    (Seq (Group 2 (Plus (Class digit)))
     (Seq (Lit ".")
      (Seq (Group 3 (Plus (Class lower))) Eol)))).

Definition isImageTypeSupported (extension : string) : bool :=
  existsb (String.eqb extension) ["jpg"; "jpeg"; "png"; "webp"; "gif"; "svg"].

(** [info[i]] of an [exec] result. *)
Definition group (i : nat) (info : match_result) : option string :=
  capture i (match_groups info).

(** [Number(info[i])]; [Number(undefined)] is NaN. *)
Definition Number_of_group (g : option string) : number :=
  match g with
  | Some s => js_Number s
  | None => S754_nan
  end.

(** The specification's [parseTokenMetadataName]: the pattern applied to a
    file's base name and the index read off its first group, as
    [readMetadataDir] does it. *)
Definition parseTokenMetadataName (name : string) : option number :=
  match exec tokenMetadataNamePattern name with
  | Some info => Some (Number_of_group (group 1 info))
  | None => None
  end.

(** [s] matches [^\d+\.json$] with [ds] its digits. *)
Definition tokenMetadataName (s ds : string) : Prop :=
  ds <> "" /\ forall_chars digit ds = true /\ s = ds ++ ".json".

Definition categoryName (c : MediaCategory) : string :=
  match c with
  | image => "image"
  | asset => "asset"
  | icon => "icon"
  end.

Definition categoryPrefix (c : option MediaCategory) : string :=
  match c with
  | Some c' => categoryName c' ++ "-"
  | None => ""
  end.

(** [s] matches [^(?:(image|asset|icon)-)?(\d+)\.([a-z]+)$] with category
    [c], digits [ds] and extension [ext]. *)
Definition mediaName (s : string) (c : option MediaCategory) (ds ext : string)
  : Prop :=
  ds <> "" /\ forall_chars digit ds = true
  /\ ext <> "" /\ forall_chars lower ext = true
  /\ s = categoryPrefix c ++ ds ++ "." ++ ext.

(* ================================================================= *)
(** ** validators.ts *)

(** [[1-9A-HJ-NP-Za-km-z]] *)
Definition base58 (c : ascii) : bool :=
  in_range "1" "9" c || in_range "A" "H" c || in_range "J" "N" c
  || in_range "P" "Z" c || in_range "a" "k" c || in_range "m" "z" c.

(** [[A-Za-z2-7]] *)
Definition base32 (c : ascii) : bool :=
  in_range "A" "Z" c || in_range "a" "z" c || in_range "2" "7" c.

(** [[A-Z2-7]] *)
Definition base32upper (c : ascii) : bool :=
  in_range "A" "Z" c || in_range "2" "7" c.

(** [[0-9A-F]] *)
Definition base16upper (c : ascii) : bool :=
  in_range "0" "9" c || in_range "A" "F" c.

(** The five address formats of the pattern: the prefix, the least number
    of characters after it, and their class. *)
Definition addressFormats : list (string * nat * (ascii -> bool)) :=
  [("Qm", 44, base58); ("b", 58, base32); ("B", 58, base32upper);
   ("z", 48, base58); ("F", 50, base16upper)].

Definition formatPattern (f : string * nat * (ascii -> bool)) : regex :=
  let '(prefix, least, class) := f in Seq (Lit prefix) (AtLeast least (Class class)).

(** [/ipfs:\/\/(Qm[1-9A-HJ-NP-Za-km-z]{44,}|b[A-Za-z2-7]{58,}|B[A-Z2-7]{58,}|z[1-9A-HJ-NP-Za-km-z]{48,}|F[0-9A-F]{50,})/] *)
Definition uriPattern : regex :=
  Seq (Lit "ipfs://")
      (Group 1
         (Alt (formatPattern ("Qm", 44, base58))
         (Alt (formatPattern ("b", 58, base32))
         (Alt (formatPattern ("B", 58, base32upper))
         (Alt (formatPattern ("z", 48, base58))
              (formatPattern ("F", 50, base16upper))))))).

(** The validator [IpfsUrl()]: [assert.isString], then the pattern. *)
Definition IpfsUrl (input : value) : result string :=
  match input with
  | VStr s =>
      match exec uriPattern s with
      | Some _ => Ok s
      | None => Throw (Error "not ipfs url")
      end
  | _ => Throw (TypeError "expected a string")
  end.

(** What an inquirer [validate] callback answers: [true], or the message
    shown before the question is asked again. *)
Inductive validation : Type :=
| Accepted
| Reprompt (message : string).

(** The [validate] callback of the [baseUri] question. *)
Definition validateBaseUri (input : value) : validation :=
  match IpfsUrl input with
  | Ok _ => Accepted
  | Throw _ =>
      Reprompt "Invalid IPFS URL. Please enter a valid IPFS URL, e.g. ipfs://bafybeiesesamfxkgronf4pf4maauei6svfas4vvzlhm7o4kzwnvbb3h5i4"
  end.

(** How the scan sees one directory entry. *)
Inductive entry : Type :=
| Ignored
| Unreadable
| MissingField
| Valid (token : OpenSeaToken).

(** One of the five address formats: its prefix, then at least so many
    characters of its class. *)
Definition ipfsAddress (addr : string) : Prop :=
  exists prefix least class w,
    In (prefix, least, class) addressFormats
    /\ addr = prefix ++ w
    /\ least <= String.length w
    /\ forall_chars class w = true.

(** The scheme token followed by an address, and nothing else. *)
Definition conformingUri (s : string) : Prop :=
  exists addr, s = "ipfs://" ++ addr /\ ipfsAddress addr.

(** A conforming string occurs somewhere in [s]. *)
Definition containsUri (s : string) : Prop :=
  exists pre u post, s = pre ++ u ++ post /\ conformingUri u.

Definition invalidUriMessage : string :=
  "Invalid IPFS URL. Please enter a valid IPFS URL, e.g. ipfs://bafybeiesesamfxkgronf4pf4maauei6svfas4vvzlhm7o4kzwnvbb3h5i4".

Definition embeddedUri : string :=
  "see ipfs://Qm" ++ "11111111111111111111111111111111111111111111" ++ "/file?x".

(* ================================================================= *)
(** ** generate.ts: the scanners, the builder and the assembler *)

Section Pipeline.

Variable P : Platform.

(** [path.normalize(path.join(dir, file))] *)
Definition resolve (dir file : string) : string :=
  path_normalize P (path_join P dir file).

(** [for (const x of xs) { ... }] over an accumulator. *)
Fixpoint forEach {A S} (body : A -> S -> M S) (xs : list A) (s : S) : M S :=
  match xs with
  | [] => ret s
  | x :: xs' => s' <- body x s ;; forEach body xs' s'
  end.

(** The body of the loop of [readMetadataDir]; [result] is the array
    being filled. *)
Definition readMetadataDir_file (dir file : string) (result : list OpenSeaToken)
  : M (list OpenSeaToken) :=
  let metadataFile := resolve dir file in
  match exec tokenMetadataNamePattern (path_basename P metadataFile) with
  | Some info =>
      try_catch
        (data <- lift (readFile P metadataFile) ;;
         metadata <- lift (JSON_parse P (utf8_decode P data)) ;;
         if negb (truthy (get_opt metadata "name"))
            || negb (truthy (get_opt metadata "image"))
         then
           emit (ConsoleWarn ("Token is missing name and/or image: "
                              ++ metadataFile)) ;;;
           ret result
         else
           ret (result ++ [ {| token_index := Number_of_group (group 1 info);
                               token_file := metadataFile;
                               token_metadata := metadata |} ])%list)
        (fun _ => throw (Error ("Failed to read token: " ++ metadataFile)))
  | None => ret result
  end.

Definition readMetadataDir (dir : string) : M (list OpenSeaToken) :=
  try_catch
    (files <- lift (readdir P dir) ;;
     forEach (readMetadataDir_file dir) files [])
    (fun e =>
       emit (ConsoleError e) ;;;
       throw (Error ("Failed to read tokens from metadata directory: " ++ dir))).

Definition parseMediaFile (file : string) : M (option MediaFileInfo) :=
  match exec mediaNamePattern (path_basename P file) with
  | Some info =>
      let index := Number_of_group (group 2 info) in
      let extension := match group 3 info with Some e => e | None => "" end in
      match group 1 info with
      | Some c =>
          (* [info[1] as MediaCategory]: the group captures nothing else *)
          match MediaCategory_of_string c with
          | Some category =>
              ret (Some {| media_file := file; media_category := category;
                           media_index := index; media_extension := extension |})
          | None => ret None
          end
      | None =>
          if isImageTypeSupported extension
          then ret (Some {| media_file := file; media_category := image;
                            media_index := index; media_extension := extension |})
          else
            emit (ConsoleWarn ("Unsupported image file type '" ++ extension
                               ++ "': " ++ file)) ;;;
            ret None
      end
  | None => ret None
  end.

Definition readMediaDir_file (dir file : string) (result : list MediaFileInfo)
  : M (list MediaFileInfo) :=
  let mediaFile := resolve dir file in
  info <- parseMediaFile mediaFile ;;
  match info with
  | Some i => ret (result ++ [i])%list
  | None => ret result
  end.

Definition readMediaDir (dir : string) : M (list MediaFileInfo) :=
  try_catch
    (files <- lift (readdir P dir) ;;
     forEach (readMediaDir_file dir) files [])
    (fun e =>
       emit (ConsoleError e) ;;;
       throw (Error ("Failed to read media from directory: " ++ dir))).

Definition buildFileInfo (info : MediaFileInfo) (baseUri : string)
  : M (option FileInfo) :=
  if MediaCategory_eqb (media_category info) image then
    imageInfo <- lift (sharp_metadata P (media_file info)) ;;
    match meta_width imageInfo, meta_height imageInfo with
    | Some w, Some h =>
        if negb (number_truthy w) || negb (number_truthy h)
        then throw (Error ("Failed to read image: " ++ media_file info))
        else
          content <- lift (readFile P (media_file info)) ;;
          ret (Some {| width := w;
                       height := h;
                       hashFunction := "keccak256(bytes)";
                       hash := "0x" ++ hex (keccak256 P content);
                       url := baseUri ++ "/" ++ Number_toString (media_index info)
                                      ++ "." ++ media_extension info |})
    | _, _ => throw (Error ("Failed to read image: " ++ media_file info))
    end
  else ret None.

(** [token.metadata.attributes?.map(...)] *)
Definition mapAttributes (metadata : value) : M value :=
  attributes <- lift (get metadata "attributes") ;;
  match attributes with
  | VUndefined | VNull => ret VUndefined
  | VArr items =>
      mapped <- mapM (fun attribute =>
                        key <- lift (get attribute "trait_type") ;;
                        v <- lift (get attribute "value") ;;
                        ret (VObj [("key", key); ("value", v)])) items ;;
      ret (VArr mapped)
  | _ =>
      throw (TypeError "token.metadata.attributes?.map is not a function")
  end.

Definition matches (token : OpenSeaToken) (category : MediaCategory)
  (info : MediaFileInfo) : bool :=
  number_eqb (media_index info) (token_index token)
  && MediaCategory_eqb (media_category info) category.

(** The part of the loop body of [buildMetadata] that builds the
    [LSP4Metadata] object of one token.  The image jobs, which the source
    starts together and awaits with [Promise.all], are run here in array
    order: they emit nothing, and when several fail this is the error of
    the first in the array. *)
Definition tokenMetadata (baseUri : string) (links : option (list Link))
  (mediaFiles : option (list MediaFileInfo)) (token : OpenSeaToken)
  : M LSP4Metadata :=
  attributes <- mapAttributes (token_metadata token) ;;
  let iconInfo := match mediaFiles with
                  | Some files => find (matches token icon) files
                  | None => None
                  end in
  icon <- match iconInfo with
          | Some info => buildFileInfo info baseUri
          | None => ret None
          end ;;
  images <- match mediaFiles with
            | Some files =>
                built <- mapM (fun info => buildFileInfo info baseUri)
                              (filter (matches token image) files) ;;
                ret (Some [built])
            | None => ret None
            end ;;
  name <- lift (get (token_metadata token) "name") ;;
  description <- lift (get (token_metadata token) "description") ;;
  ret {| lsp4_name := name;
         lsp4_description := description;
         lsp4_attributes := attributes;
         lsp4_icon := icon;
         lsp4_images := images;
         lsp4_links := links |}.

(** The loop body of [buildMetadata]. *)
Definition buildMetadata_token (outputDir baseUri : string)
  (links : option (list Link)) (mediaFiles : option (list MediaFileInfo))
  (token : OpenSeaToken) (_ : unit) : M unit :=
  let file := resolve outputDir (Number_toString (token_index token) ++ ".json") in
  metadata <- tokenMetadata baseUri links mediaFiles token ;;
  let data := JSON_stringify P (value_of_metadata metadata) in
  lift (writeFile P file data) ;;;
  emit (WriteFile file data) ;;;
  emit ProgressIncrement.

Definition buildMetadata (outputDir baseUri : string)
  (links : option (list Link)) (openSeaTokens : option (list OpenSeaToken))
  (mediaFiles : option (list MediaFileInfo)) : M unit :=
  lift (mkdir P outputDir) ;;;
  emit (Mkdir outputDir) ;;;
  try_finally
    (match openSeaTokens with
     | Some tokens =>
         emit (ProgressStart (List.length tokens) 0) ;;;
         forEach (buildMetadata_token outputDir baseUri links mediaFiles)
                 tokens tt
     | None => ret tt
     end)
    (emit ProgressStop).

(** *** The metadata scan, entry by entry *)

Definition classify (dir file : string) : entry :=
  let metadataFile := resolve dir file in
  match exec tokenMetadataNamePattern (path_basename P metadataFile) with
  | None => Ignored
  | Some info =>
      match readFile P metadataFile with
      | Throw _ => Unreadable
      | Ok data =>
          match JSON_parse P (utf8_decode P data) with
          | Throw _ => Unreadable
          | Ok metadata =>
              if truthy (get_opt metadata "name")
                 && truthy (get_opt metadata "image")
              then Valid {| token_index := Number_of_group (group 1 info);
                            token_file := metadataFile;
                            token_metadata := metadata |}
              else MissingField
          end
      end
  end.

Definition missingWarning (dir file : string) : event :=
  ConsoleWarn ("Token is missing name and/or image: " ++ resolve dir file).

Definition readError (dir file : string) : error :=
  Error ("Failed to read token: " ++ resolve dir file).

Definition warningsOf (dir : string) (files : list string) : list event :=
  flat_map (fun f => match classify dir f with
                     | MissingField => [missingWarning dir f]
                     | _ => []
                     end) files.

Definition tokensOf (dir : string) (files : list string) : list OpenSeaToken :=
  flat_map (fun f => match classify dir f with
                     | Valid token => [token]
                     | _ => []
                     end) files.

End Pipeline.

(* ================================================================= *)
(** ** A directory in memory

    A small platform on which the properties below are exercised: a flat
    POSIX layout, files and their parses given by tables, and a digest that
    only stands in for keccak256 (no property depends on which function it
    is). *)

Fixpoint assoc {A} (key : string) (table : list (string * A)) : option A :=
  match table with
  | [] => None
  | (k, a) :: table' => if String.eqb key k then Some a else assoc key table'
  end.

Fixpoint basename_from (acc s : string) : string :=
  match s with
  | EmptyString => acc
  | String c s' =>
      if Ascii.eqb c "/" then basename_from "" s'
      else basename_from (acc ++ String c "") s'
  end.

Definition dq : string := String "034" "".

Definition quoted (s : string) : string := dq ++ s ++ dq.

Fixpoint join (sep : string) (parts : list string) : string :=
  match parts with
  | [] => ""
  | [p] => p
  | p :: parts' => p ++ sep ++ join sep parts'
  end.

Definition is_finite (x : number) : bool :=
  match x with
  | S754_zero _ | S754_finite _ _ _ => true
  | _ => false
  end.

(** [JSON.stringify] on strings without characters that need escaping. *)
Fixpoint stringify (v : value) : option string :=
  match v with
  | VUndefined => None
  | VNull => Some "null"
  | VBool b => Some (if b then "true" else "false")
  | VNum x => Some (if is_finite x then Number_toString x else "null")
  | VStr s => Some (quoted s)
  | VArr items =>
      Some ("[" ++ join "," (map (fun i => match stringify i with
                                           | Some t => t
                                           | None => "null"
                                           end) items) ++ "]")
  | VObj fields =>
      Some ("{" ++ join "," (flat_map (fun kv => match stringify (snd kv) with
                                                 | Some t => [quoted (fst kv) ++ ":" ++ t]
                                                 | None => []
                                                 end) fields) ++ "}")
  end.

Definition enoent {A} (path : string) : result A :=
  Throw (Error ("ENOENT: no such file or directory, open '" ++ path ++ "'")).

Definition memory (dirs : list (string * list string))
  (files : list (string * string)) (parses : list (string * value))
  (pictures : list (string * (Z * Z))) : Platform :=
  {| path_join := fun dir file => dir ++ "/" ++ file;
     path_normalize := fun p => p;
     path_basename := basename_from "";
     readdir := fun dir => match assoc dir dirs with
                           | Some names => Ok names
                           | None => enoent dir
                           end;
     readFile := fun path => match assoc path files with
                             | Some text => Ok (list_byte_of_string text)
                             | None => enoent path
                             end;
     utf8_decode := string_of_list_byte;
     mkdir := fun _ => Ok tt;
     writeFile := fun _ _ => Ok tt;
     JSON_parse := fun text => match assoc text parses with
                               | Some v => Ok v
                               | None => Throw (Error "Unexpected token in JSON")
                               end;
     JSON_stringify := fun v => match stringify v with
                                | Some t => t
                                | None => ""
                                end;
     sharp_metadata := fun path =>
       match assoc path pictures with
       | Some (w, h) => Ok {| meta_width := Some (number_of_Z w);
                              meta_height := Some (number_of_Z h) |}
       | None => Throw (Error "Input file is missing or of an unsupported image format")
       end;
     keccak256 := fun content => firstn 32 (content ++ repeat Byte.x00 32)%list |}.

Definition validText : string :=
  "{" ++ quoted "name" ++ ":" ++ quoted "Token 1" ++ ","
      ++ quoted "image" ++ ":" ++ quoted "ipfs://x/1.png" ++ "}".
Definition validValue : value :=
  VObj [("name", VStr "Token 1"); ("image", VStr "ipfs://x/1.png")].

Definition missingText : string :=
  "{" ++ quoted "description" ++ ":" ++ quoted "x" ++ "}".
Definition missingValue : value := VObj [("description", VStr "x")].

Definition emptyNameText : string :=
  "{" ++ quoted "name" ++ ":" ++ quoted "" ++ ","
      ++ quoted "image" ++ ":" ++ quoted "3.png" ++ "}".
Definition emptyNameValue : value :=
  VObj [("name", VStr ""); ("image", VStr "3.png")].

Definition example : Platform :=
  memory
    [("metadata", ["1.json"; "2.json"; "3.json"; "notes.txt"]);
     ("broken", ["1.json"; "2.json"]);
     ("media", ["icon-3.png"; "5.jpg"; "5.xyz"; "README.md"]);
     ("art", ["icon-1.png"; "image-1.png"; "1.jpg"; "image-2.png"])]
    [("metadata/1.json", validText); ("metadata/2.json", missingText);
     ("metadata/3.json", emptyNameText);
     ("broken/1.json", validText); ("broken/2.json", "{");
     ("art/icon-1.png", "icon one"); ("art/image-1.png", "image one");
     ("art/1.jpg", "photo one"); ("art/image-2.png", "image two");
     ("art/image-007.png", "image seven")]
    [(validText, validValue); (missingText, missingValue);
     (emptyNameText, emptyNameValue)]
    [("art/icon-1.png", (32, 32)%Z); ("art/image-1.png", (640, 480)%Z);
     ("art/1.jpg", (800, 600)%Z); ("art/image-2.png", (640, 480)%Z);
     ("art/image-007.png", (16, 16)%Z)].

Definition artToken : OpenSeaToken :=
  {| token_file := "metadata/1.json"; token_index := number_of_Z 1;
     token_metadata := validValue |}.

Definition artMedia : list MediaFileInfo :=
  [ {| media_file := "art/icon-1.png"; media_category := icon;
       media_index := number_of_Z 1; media_extension := "png" |};
    {| media_file := "art/image-1.png"; media_category := image;
       media_index := number_of_Z 1; media_extension := "png" |};
    {| media_file := "art/1.jpg"; media_category := image;
       media_index := number_of_Z 1; media_extension := "jpg" |};
    {| media_file := "art/image-2.png"; media_category := image;
       media_index := number_of_Z 2; media_extension := "png" |} ].

Definition lostMedia : list MediaFileInfo :=
  [ {| media_file := "art/lost.png"; media_category := image;
       media_index := number_of_Z 1; media_extension := "png" |} ].

(* ================================================================= *)
(** ** generate.ts: what a run reads and writes *)

Section Outputs.

Variable P : Platform.

(** What the media scan keeps of a listing, and the warnings it prints. *)
Definition mediaRecords (dir : string) (files : list string) : list MediaFileInfo :=
  flat_map (fun f => match outcome (parseMediaFile P (resolve P dir f)) with
                     | Ok (Some info) => [info]
                     | _ => []
                     end) files.

Definition mediaWarnings (dir : string) (files : list string) : list event :=
  flat_map (fun f => trace (parseMediaFile P (resolve P dir f))) files.

(** The file [buildMetadata] writes for a token, what it writes there, and
    the events of a token that is written. *)
Definition outputFile (outputDir : string) (token : OpenSeaToken) : string :=
  resolve P outputDir (Number_toString (token_index token) ++ ".json").

Definition outputData (baseUri : string) (links : option (list Link))
  (mediaFiles : option (list MediaFileInfo)) (token : OpenSeaToken) : string :=
  match outcome (tokenMetadata P baseUri links mediaFiles token) with
  | Ok metadata => JSON_stringify P (value_of_metadata metadata)
  | Throw _ => ""
  end.

Definition outputEvents (outputDir baseUri : string) (links : option (list Link))
  (mediaFiles : option (list MediaFileInfo)) (token : OpenSeaToken) : list event :=
  [WriteFile (outputFile outputDir token) (outputData baseUri links mediaFiles token);
   ProgressIncrement].

End Outputs.

(** A numeral as [Number::toString] prints it: digits, and no zero in
    front of another digit. *)
Definition canonical (ds : string) : bool :=
  forall_chars digit ds
  && match ds with
     | EmptyString => false
     | String c EmptyString => true
     | String c _ => negb (Ascii.eqb c "0")
     end.

(** [null] or [undefined]. *)
Definition nullish (v : value) : bool :=
  match v with VUndefined | VNull => true | _ => false end.

(** What [mapAttributes] makes of one item of the array. *)
Definition attributeEntry (attribute : value) : value :=
  VObj [("key", get_opt attribute "trait_type"); ("value", get_opt attribute "value")].

(** The events of the scanners: warnings and logged errors. *)
Definition isConsole (ev : event) : bool :=
  match ev with ConsoleWarn _ | ConsoleError _ => true | _ => false end.

(* ================================================================= *)
(** ** generate.ts: the command *)

(** [String.prototype.trim] strips white space and line terminators from
    both ends; among the characters of this model these are TAB, LF, VT,
    FF, CR, SP and NBSP. *)
Definition whitespace (c : ascii) : bool :=
  let n := nat_of_ascii c in
  (Nat.leb 9 n && Nat.leb n 13) || Nat.eqb n 32 || Nat.eqb n 160.

Fixpoint trimStart (s : string) : string :=
  match s with
  | EmptyString => EmptyString
  | String c s' => if whitespace c then trimStart s' else s
  end.

Fixpoint trimEnd (s : string) : string :=
  match s with
  | EmptyString => EmptyString
  | String c s' =>
      match trimEnd s' with
      | EmptyString => if whitespace c then EmptyString else String c EmptyString
      | t => String c t
      end
  end.

Definition trim (s : string) : string := trimEnd (trimStart s).

(** What a command prints and does, in order: [console.log(text)],
    [console.error(text)], and the events of the pipeline.  Colours are
    left out, as in [ConsoleWarn]. *)
Inductive output : Type :=
| ConsoleLog (text : string)
| ConsoleErrorText (text : string)
| Event (ev : event).

(** How an awaited call of the shell ends: it returns, it rejects, the
    process exits in it, or it is still waiting for input when the session
    ends. *)
Inductive completion (A : Type) : Type :=
| Returned (a : A)
| Rejected (e : error)
| Exited (code : Z)
| Pending.
Arguments Returned {A} a.
Arguments Rejected {A} e.
Arguments Exited {A} code.
Arguments Pending {A}.

Definition Sh (A : Type) : Type := list output * completion A.

Definition andThen {A B} (m : Sh A) (f : A -> Sh B) : Sh B :=
  match m with
  | (t, Returned a) => let (t', r) := f a in ((t ++ t')%list, r)
  | (t, Rejected e) => (t, Rejected e)
  | (t, Exited code) => (t, Exited code)
  | (t, Pending) => (t, Pending)
  end.

Declare Scope sh_scope.
Delimit Scope sh_scope with sh.
Notation "x <- m ;; k" := (andThen m (fun x => k))
  (at level 61, m at next level, right associativity) : sh_scope.
Notation "m ;;; k" := (andThen m (fun _ => k))
  (at level 61, right associativity) : sh_scope.

Definition done {A} (a : A) : Sh A := ([], Returned a).
Definition log (text : string) : Sh unit := ([ConsoleLog text], Returned tt).
Definition logError (text : string) : Sh unit := ([ConsoleErrorText text], Returned tt).
Definition process_exit {A} (code : Z) : Sh A := ([], Exited code).

(** An awaited call into the pipeline. *)
Definition await {A} (m : M A) : Sh A :=
  (map Event (trace m),
   match outcome m with
   | Ok a => Returned a
   | Throw e => Rejected e
   end).

(** [try { m } catch (e) { h e }] in the shell. *)
Definition catch {A} (m : Sh A) (h : error -> Sh A) : Sh A :=
  match m with
  | (t, Rejected e) => let (t', r) := h e in ((t ++ t')%list, r)
  | _ => m
  end.

(** [e.message]; every error of this model carries one, so the fallback
    of [e.message ?? 'Something went wrong'] is never taken. *)
Definition message (e : error) : string :=
  match e with
  | Error m | TypeError m => m
  end.

(** What inquirer resolved the questions of one run of the command to:
    the confirmation, the three inputs (the base URI has passed
    [validateBaseUri]), and the title and URL of each round of the link
    loop that was answered yes, the loop ending at the first no.  [now] is
    what [Date.now()] returns in this run. *)
Record Answers : Type := {
  didUploadToIpfs : bool;
  answer_baseUri : string;
  answer_mediaDir : string;
  answer_metadataDir : string;
  answer_links : list (string * string);
  now : number
}.

Section Command.

Variable P : Platform.
(** [__dirname] *)
Variable dirname : string.

(** [path.join(__dirname, '../../../build', String(Date.now()))] *)
Definition outputDirOf (a : Answers) : string :=
  path_join P (path_join P dirname "../../../build") (Number_toString (now a)).

Definition linksOf (a : Answers) : list Link :=
  map (fun l => {| link_title := trim (fst l); link_url := trim (snd l) |})
      (answer_links a).

(** [command.invoke] of generate.ts. *)
Definition generateMetadata_invoke (a : Answers) : Sh unit :=
  (log "Before generating metadata for your NFT, please ensure that you have uploaded all necessary images and assets to IPFS." ;;;
   log "Once uploaded, you will need to have the IPFS hashes for each file." ;;;
   log "" ;;;
   if negb (didUploadToIpfs a) then done tt
   else
     let links := linksOf a in
     let outputDir := outputDirOf a in
     catch
       (openSeaTokens <- await (readMetadataDir P (trim (answer_metadataDir a))) ;;
        mediaFiles <- await (readMediaDir P (trim (answer_mediaDir a))) ;;
        log "" ;;;
        await (buildMetadata P outputDir (trim (answer_baseUri a)) (Some links)
                             (Some openSeaTokens) (Some mediaFiles)) ;;;
        log "Done!" ;;;
        log "" ;;;
        log "Token metadata is built and available for upload:" ;;;
        log outputDir ;;;
        log "")
       (fun e => log "" ;;; logError (message e) ;;; log ""))%sh.

End Command.

(* ================================================================= *)
(** ** The shell: the entry module, help.ts and quit.ts *)

Record Command : Type := {
  command_name : string;
  command_invoke : Answers -> Sh unit
}.

Section Shell.

Variable P : Platform.
Variable dirname : string.
(** [figlet.textSync('UniversalPage')] *)
Variable banner : string.

Definition help : Command :=
  {| command_name := "help";
     command_invoke := fun _ =>
       (log "Here is a list of supported commands:" ;;;
        log "generate metadata: generate metadata for an NFT using LSP7 or LSP8 standards" ;;;
        log "quit: quit CLI" ;;;
        log "help: display help information for a command" ;;;
        log "")%sh |}.

Definition quit : Command :=
  {| command_name := "quit";
     command_invoke := fun _ => process_exit 0 |}.

Definition generateMetadata : Command :=
  {| command_name := "generate metadata";
     command_invoke := generateMetadata_invoke P dirname |}.

(** The properties every object inherits from [Object.prototype]. *)
Definition objectPrototypeNames : list string :=
  ["constructor"; "__defineGetter__"; "__defineSetter__"; "hasOwnProperty";
   "__lookupGetter__"; "__lookupSetter__"; "isPrototypeOf";
   "propertyIsEnumerable"; "toString"; "valueOf"; "__proto__";
   "toLocaleString"].

(** What [commands[name]] evaluates to on the object that
    [Object.fromEntries] builds from the three commands (their names are
    distinct): a command, a property inherited from [Object.prototype]
    (a function or an object, truthy, without an [invoke]), or
    [undefined]. *)
Inductive property : Type :=
| Own (c : Command)
| Inherited
| Undefined.

Definition commands (name : string) : property :=
  match find (fun c => String.eqb name (command_name c))
             [help; quit; generateMetadata] with
  | Some c => Own c
  | None =>
      if existsb (String.eqb name) objectPrototypeNames then Inherited
      else Undefined
  end.

(** The names after which the loop asks again: all but [quit] and the
    inherited ones. *)
Definition keepsRunning (name : string) : bool :=
  negb (String.eqb name "quit")
  && negb (existsb (String.eqb name) objectPrototypeNames).

(** The loop of [main] over a session: the names that the command prompt
    resolved to, in order, each with the answers that the command it
    starts, if it asks any, is given.  When the names run out the loop is
    waiting at the prompt. *)
Fixpoint loop (session : list (string * Answers)) : Sh unit :=
  match session with
  | [] => ([], Pending)
  | (name, a) :: session' =>
      match commands name with
      | Own c => (command_invoke c a ;;; loop session')%sh
      | Inherited => ([], Rejected (TypeError "command.invoke is not a function"))
      | Undefined => loop session'
      end
  end.

Definition main (session : list (string * Answers)) : Sh unit :=
  (log "Welcome to the UniversalPage CLI!" ;;;
   log "" ;;;
   log "This CLI provides a guided interface to configure and manage your NFTs on the UniversalPage marketplace." ;;;
   log "You can use this tool to create new NFTs, manage existing ones, and generate metadata using LSP7 and LSP8 standards." ;;;
   log "Thank you for using the UniversalPage NFT CLI!" ;;;
   log "" ;;;
   loop session)%sh.

(** The module: the banner, then
    [main().then(() => process.exit(0)).catch(e => { console.error(e); process.exit(1) })]. *)
Definition program (session : list (string * Answers)) : Sh unit :=
  (log banner ;;;
   catch (main session ;;; process_exit 0)
         (fun e => ([Event (ConsoleError e)], Exited 1)))%sh.

End Shell.

(* ================================================================= *)
(** ** Runs of the command on the directory in memory *)

Definition exampleAnswers : Answers :=
  {| didUploadToIpfs := true;
     answer_baseUri :=
       " ipfs://Qm" ++ "11111111111111111111111111111111111111111111" ++ " ";
     answer_mediaDir := "art ";
     answer_metadataDir := " metadata";
     answer_links := [(" Twitter", "https://twitter.com/_universalpage ")];
     now := number_of_Z 1700000000000 |}.


(** A token whose only image cannot be measured, after the records of
    [artMedia]. *)
Definition lostToken : OpenSeaToken :=
  {| token_file := "metadata/5.json"; token_index := number_of_Z 5;
     token_metadata := validValue |}.

Definition artAndLostMedia : list MediaFileInfo :=
  (artMedia ++ [ {| media_file := "art/lost.png"; media_category := image;
                    media_index := number_of_Z 5; media_extension := "png" |} ])%list.

(* ================================================================= *)
(** * Properties *)

(** ** Strings *)

Lemma append_nil_r (s : string) : s ++ "" = s.
Proof. induction s; simpl; congruence. Qed.

Lemma append_assoc (s1 s2 s3 : string) : (s1 ++ s2) ++ s3 = s1 ++ s2 ++ s3.
Proof. induction s1; simpl; congruence. Qed.

Lemma length_append (s1 s2 : string) :
  String.length (s1 ++ s2) = String.length s1 + String.length s2.
Proof. induction s1; simpl; congruence. Qed.

Lemma take_append (w s : string) : take (String.length w) (w ++ s) = w.
Proof.
  unfold take. induction w as [|c w IH]; simpl.
  - destruct s; reflexivity.
  - now rewrite IH.
Qed.

Lemma drop_append (w s : string) : drop (String.length w) (w ++ s) = s.
Proof. induction w; simpl; auto. Qed.

Lemma drop_length (n : nat) (s : string) :
  n <= String.length s -> String.length (drop n s) = String.length s - n.
Proof.
  revert s. induction n as [|n IH]; intros s H; simpl.
  - lia.
  - destruct s; simpl in *; [lia | apply IH; lia].
Qed.

Lemma take_drop (n : nat) (s : string) : take n s ++ drop n s = s.
Proof.
  unfold take. revert s. induction n as [|n IH]; intros s; simpl.
  - destruct s; reflexivity.
  - destruct s; simpl; [reflexivity | now rewrite IH].
Qed.

Lemma append_same_length (w1 w2 s1 s2 : string) :
  w1 ++ s1 = w2 ++ s2 -> String.length w1 = String.length w2 ->
  w1 = w2 /\ s1 = s2.
Proof.
  revert w2. induction w1 as [|c w1 IH]; intros [|c2 w2] H L;
    simpl in *; try discriminate; auto.
  injection H as -> H. destruct (IH w2 H) as [-> ->]; auto.
Qed.

Lemma append_cancel_r (w1 w2 s : string) : w1 ++ s = w2 ++ s -> w1 = w2.
Proof.
  intros H. apply (append_same_length w1 w2 s s H).
  apply (f_equal String.length) in H. rewrite !length_append in H. lia.
Qed.

Lemma forall_chars_append (p : ascii -> bool) (s1 s2 : string) :
  forall_chars p (s1 ++ s2) = forall_chars p s1 && forall_chars p s2.
Proof. induction s1; simpl; [reflexivity | rewrite IHs1; apply andb_assoc]. Qed.

(** ** The matcher against its declarative reading *)

(** A path consumes a prefix of what is left of the input. *)
Lemma path_consumes r a b :
  path r a b ->
  exists w, rest a = w ++ rest b /\ pos b = pos a + String.length w.
Proof.
  induction 1.
  - exists ""; simpl; split; [reflexivity | lia].
  - exists (String c ""); simpl; split; [assumption | lia].
  - destruct IHpath1 as (w1 & E1 & L1), IHpath2 as (w2 & E2 & L2).
    exists (w1 ++ w2). rewrite append_assoc, <- E2, <- E1.
    rewrite length_append. split; [reflexivity | lia].
  - assumption.
  - assumption.
  - exists ""; simpl; split; [reflexivity | lia].
  - destruct IHpath1 as (w1 & E1 & L1), IHpath2 as (w2 & E2 & L2).
    exists (w1 ++ w2). rewrite append_assoc, <- E2, <- E1.
    rewrite length_append. split; [reflexivity | lia].
  - destruct IHpath as (w & E & L). exists w. simpl. auto.
  - exists ""; simpl; split; [reflexivity | lia].
  - exists ""; simpl; split; [reflexivity | lia].
Qed.

Lemma path_length r a b :
  path r a b ->
  pos b + String.length (rest b) = pos a + String.length (rest a).
Proof.
  intros H. destruct (path_consumes H) as (w & E & L).
  rewrite E, length_append. lia.
Qed.

(** Soundness: a result of the matcher comes from a path to a state the
    continuation accepts. *)
Lemma rmatch_sound r :
  forall st k res,
    rmatch r st k = Some res ->
    exists st', path r st st' /\ k st' = Some res.
Proof.
  induction r as [|p|r1 IH1 r2 IH2|r1 IH1 r2 IH2|r IH|i r IH| |];
    intros st k res H; simpl in H.
  - eauto with regex.
  - destruct (rest st) as [|c s] eqn:E; [discriminate|].
    destruct (p c) eqn:Pc; [|discriminate]. eauto with regex.
  - apply IH1 in H as (b & Hab & H). apply IH2 in H as (c & Hbc & H).
    eauto with regex.
  - destruct (rmatch r1 st k) eqn:E1.
    + injection H as <-. apply IH1 in E1 as (b & Hab & Hk). eauto with regex.
    + apply IH2 in H as (b & Hab & Hk). eauto with regex.
  - remember (String.length (rest st)) as fuel eqn:Hf. clear Hf.
    revert st H. induction fuel as [|fuel IHf]; intros st H.
    + eauto with regex.
    + destruct (rmatch r st _) eqn:E.
      * injection H as <-. apply IH in E as (b & Hab & Hk).
        destruct (Nat.ltb (pos st) (pos b)) eqn:Hlt; [|discriminate].
        apply Nat.ltb_lt in Hlt.
        apply IHf in Hk as (c & Hbc & Hk). eauto with regex.
      * eauto with regex.
  - apply IH in H as (b & Hab & Hk). eauto with regex.
  - destruct (Nat.eqb (pos st) 0) eqn:E; [|discriminate].
    apply Nat.eqb_eq in E. eauto with regex.
  - destruct (rest st) eqn:E; [|discriminate]. eauto with regex.
Qed.

(** Completeness: when a path leads to a state the continuation accepts,
    the matcher finds a result (that of the first such path it tries). *)
Lemma rmatch_complete r :
  forall st st' k res,
    path r st st' -> k st' = Some res ->
    exists res', rmatch r st k = Some res'.
Proof.
  induction r as [|p|r1 IH1 r2 IH2|r1 IH1 r2 IH2|r IH|i r IH| |];
    intros st st' k res Hp Hk; simpl.
  - inversion Hp; subst. eauto.
  - inversion Hp; subst.
    match goal with
    | H1 : rest st = _, H2 : p _ = true |- _ => rewrite H1, H2
    end. eauto.
  - inversion Hp; subst.
    match goal with
    | H1 : path r1 st ?b, H2 : path r2 ?b st' |- _ =>
        destruct (IH2 _ _ _ _ H2 Hk) as (res2 & E2);
        exact (IH1 _ _ _ _ H1 E2)
    end.
  - inversion Hp; subst.
    + match goal with
      | H1 : path r1 st st' |- _ =>
          destruct (IH1 _ _ _ _ H1 Hk) as (res1 & ->)
      end. eauto.
    + destruct (rmatch r1 st k); eauto.
  - assert (Hfuel : String.length (rest st) <= String.length (rest st)) by lia.
    revert Hfuel. generalize (String.length (rest st)) at 2 3 as fuel.
    intros fuel. revert st Hp.
    induction fuel as [|fuel IHf]; intros st Hp Hfuel.
    + inversion Hp as [| | | | |? ?|? a0 b c Hab Hlt Hbc| | |]; subst; [eauto|].
      apply path_length in Hab. lia.
    + inversion Hp as [| | | | |? ?|? a0 b c Hab Hlt Hbc| | |]; subst.
      * destruct (rmatch r st' _); eauto.
      * assert (Hlen := path_length Hab).
        destruct (IHf b Hbc ltac:(lia)) as (res2 & E2).
        assert (Hc : (fun st1 : mstate =>
                        if Nat.ltb (pos st) (pos st1)
                        then (fix loop (fuel0 : nat) (st0 : mstate) {struct fuel0} :=
                                match fuel0 with
                                | 0 => k st0
                                | S fuel' =>
                                    match rmatch r st0
                                            (fun st2 => if Nat.ltb (pos st0) (pos st2)
                                                        then loop fuel' st2 else None) with
                                    | Some res0 => Some res0
                                    | None => k st0
                                    end
                                end) fuel st1
                        else None) b = Some res2).
        { simpl. apply Nat.ltb_lt in Hlt. rewrite Hlt. exact E2. }
        destruct (IH _ _ _ _ Hab Hc) as (res1 & ->). eauto.
  - inversion Hp; subst.
    match goal with H1 : path r st _ |- _ => exact (IH _ _ _ _ H1 Hk) end.
  - inversion Hp; subst.
    match goal with H1 : pos st' = 0 |- _ => rewrite H1 end. simpl. eauto.
  - inversion Hp; subst.
    match goal with H1 : rest st' = _ |- _ => rewrite H1 end. eauto.
Qed.

Lemma match_at_sound r s i m :
  match_at r s i = Some m ->
  exists st', path r (MState i (drop i s) []) st'
              /\ m = MatchResult i (take (pos st' - i) (drop i s)) (caps st').
Proof.
  unfold match_at. intros H.
  destruct (rmatch r _ Some) as [st|] eqn:E; [|discriminate].
  injection H as <-. apply rmatch_sound in E as (st' & Hp & Hk).
  injection Hk as ->. eauto.
Qed.

Lemma match_at_complete r s i st' :
  path r (MState i (drop i s) []) st' -> exists m, match_at r s i = Some m.
Proof.
  intros Hp. unfold match_at.
  destruct (rmatch_complete Some Hp eq_refl) as (res & ->). eauto.
Qed.

Lemma exec_from_sound r s n : forall i m,
  exec_from r s i n = Some m ->
  exists j, i <= j <= i + n /\ match_at r s j = Some m.
Proof.
  induction n as [|n IH]; intros i m H; simpl in H.
  - destruct (match_at r s i) eqn:E; [|discriminate].
    injection H as <-. exists i. split; [lia | assumption].
  - destruct (match_at r s i) eqn:E.
    + injection H as <-. exists i. split; [lia | assumption].
    + apply IH in H as (j & Hj & Hm). exists j. split; [lia | assumption].
Qed.

Lemma exec_from_complete r s n : forall i j m,
  i <= j <= i + n -> match_at r s j = Some m ->
  exists m', exec_from r s i n = Some m'.
Proof.
  induction n as [|n IH]; intros i j m Hj Hm; simpl.
  - assert (j = i) as -> by lia. rewrite Hm. eauto.
  - destruct (match_at r s i) eqn:E; [eauto|].
    apply (IH (S i) j m); [|assumption].
    assert (j <> i) by congruence. lia.
Qed.

(** [exec] finds a match exactly when some start index has a path. *)
Lemma exec_sound r s m :
  exec r s = Some m ->
  exists i st', i <= String.length s
    /\ path r (MState i (drop i s) []) st'
    /\ m = MatchResult i (take (pos st' - i) (drop i s)) (caps st').
Proof.
  intros H. apply exec_from_sound in H as (j & Hj & Hm).
  apply match_at_sound in Hm as (st' & Hp & ->).
  exists j, st'. repeat split; [lia | assumption].
Qed.

Lemma exec_complete r s i st' :
  i <= String.length s -> path r (MState i (drop i s) []) st' ->
  exists m, exec r s = Some m.
Proof.
  intros Hi Hp. destruct (@match_at_complete r s i st' Hp) as (m & Hm).
  apply (@exec_from_complete r s (String.length s) 0 i m); [lia | assumption].
Qed.

Lemma consumes_nil a : consumes "" a a.
Proof. unfold consumes; simpl. repeat split; lia. Qed.

Lemma consumes_append w1 w2 a b c :
  consumes w1 a b -> consumes w2 b c -> consumes (w1 ++ w2) a c.
Proof.
  intros (E1 & L1 & C1) (E2 & L2 & C2). unfold consumes.
  rewrite append_assoc, <- E2, <- E1, length_append.
  repeat split; [lia | congruence].
Qed.

Lemma consumes_nil_inv a b : consumes "" a b -> b = a.
Proof.
  intros (E & L & C). destruct a, b; simpl in *. f_equal; [lia | auto | auto].
Qed.

Lemma consumes_split w1 w2 a c :
  consumes (w1 ++ w2) a c ->
  exists b, consumes w1 a b /\ consumes w2 b c.
Proof.
  intros (E & L & C).
  exists (MState (pos a + String.length w1) (w2 ++ rest c) (caps a)).
  unfold consumes; simpl. rewrite append_assoc in E.
  rewrite length_append in L. repeat split; auto; lia.
Qed.

Lemma consumes_cons c w a b :
  consumes (String c w) a b ->
  exists m, consumes (String c "") a m /\ consumes w m b.
Proof. apply (@consumes_split (String c "") w). Qed.

Lemma path_Class_iff p a b :
  path (Class p) a b <-> exists c, p c = true /\ consumes (String c "") a b.
Proof.
  split.
  - inversion 1; subst. exists c. unfold consumes; simpl.
    repeat split; [assumption | assumption | lia].
  - intros (c & Pc & E & L & C). simpl in E, L.
    destruct b as [pb rb cb]; simpl in *; subst.
    replace (pos a + 1) with (S (pos a)) by lia.
    now apply path_Class with (c := c).
Qed.

Lemma path_Lit_iff w : forall a b, path (Lit w) a b <-> consumes w a b.
Proof.
  induction w as [|c w IH]; intros a b; simpl.
  - split.
    + inversion 1; subst. apply consumes_nil.
    + intros H. rewrite (consumes_nil_inv H). constructor.
  - split.
    + inversion 1 as [| |? ? ? m ? H1 H2| | | | | | |]; subst.
      apply path_Class_iff in H1 as (c' & Pc & H1).
      apply Ascii.eqb_eq in Pc as <-.
      apply IH in H2. exact (consumes_append H1 H2).
    + intros H. apply consumes_cons in H as (m & H1 & H2).
      apply path_Seq with (b := m).
      * apply path_Class_iff. exists c. split; [apply Ascii.eqb_refl | exact H1].
      * now apply IH.
Qed.

Lemma path_Star_Class_iff p a b :
  path (Star (Class p)) a b <->
  exists w, forall_chars p w = true /\ consumes w a b.
Proof.
  split.
  - intros H. remember (Star (Class p)) as r eqn:Hr.
    induction H; try discriminate.
    + exists "". split; [reflexivity | apply consumes_nil].
    + injection Hr as ->.
      apply path_Class_iff in H as (ch & Pc & H).
      destruct (IHpath2 eq_refl) as (w & Hw & Hc).
      exists (String ch w). split.
      * simpl. now rewrite Pc, Hw.
      * exact (consumes_append H Hc).
  - intros (w & Hw & Hc). revert a Hw Hc.
    induction w as [|c w IH]; intros a Hw Hc.
    + rewrite (consumes_nil_inv Hc). constructor.
    + simpl in Hw. apply andb_true_iff in Hw as (Pc & Hw).
      apply consumes_cons in Hc as (m & H1 & H2).
      apply path_StarStep with (b := m).
      * apply path_Class_iff. eauto.
      * destruct H1 as (_ & L & _). simpl in L. lia.
      * now apply IH.
Qed.

Lemma path_Repeat_Class_iff p n : forall a b,
  path (Repeat n (Class p)) a b <->
  exists w, String.length w = n /\ forall_chars p w = true /\ consumes w a b.
Proof.
  induction n as [|n IH]; intros a b; simpl.
  - split.
    + inversion 1; subst. exists "".
      split; [reflexivity|]. split; [reflexivity | apply consumes_nil].
    + intros (w & L & _ & Hc). destruct w; [|discriminate].
      rewrite (consumes_nil_inv Hc). constructor.
  - split.
    + inversion 1 as [| |? ? ? m ? H1 H2| | | | | | |]; subst.
      apply path_Class_iff in H1 as (c & Pc & H1).
      apply IH in H2 as (w & L & Hw & H2).
      exists (String c w).
      split; [simpl; congruence|]. split; [simpl; now rewrite Pc, Hw|].
      exact (consumes_append H1 H2).
    + intros (w & L & Hw & Hc). destruct w as [|c w]; [discriminate|].
      simpl in L, Hw. injection L as L.
      apply andb_true_iff in Hw as (Pc & Hw).
      apply consumes_cons in Hc as (m & H1 & H2).
      apply path_Seq with (b := m).
      * apply path_Class_iff. eauto.
      * apply IH. eauto.
Qed.

Lemma path_AtLeast_Class_iff p n a b :
  path (AtLeast n (Class p)) a b <->
  exists w, n <= String.length w /\ forall_chars p w = true /\ consumes w a b.
Proof.
  unfold AtLeast. split.
  - inversion 1 as [| |? ? ? m ? H1 H2| | | | | | |]; subst.
    apply path_Repeat_Class_iff in H1 as (w1 & L1 & Hw1 & H1).
    apply path_Star_Class_iff in H2 as (w2 & Hw2 & H2).
    exists (w1 ++ w2). rewrite length_append, forall_chars_append, Hw1, Hw2.
    split; [lia|]. split; [reflexivity | exact (consumes_append H1 H2)].
  - intros (w & L & Hw & Hc).
    rewrite <- (take_drop n w) in Hw, Hc.
    rewrite forall_chars_append in Hw. apply andb_true_iff in Hw as (Hw1 & Hw2).
    assert (Ht : String.length (take n w) = n).
    { assert (E := f_equal String.length (take_drop n w)).
      rewrite length_append, drop_length in E by lia. lia. }
    apply consumes_split in Hc as (m & H1 & H2).
    apply path_Seq with (b := m).
    + apply path_Repeat_Class_iff. eauto.
    + apply path_Star_Class_iff. eauto.
Qed.

(** ** Numbers: integers up to 2^53 are binary64 values *)

Lemma digits2_pos_lower m : (2 ^ (Zpos (digits2_pos m) - 1) <= Zpos m)%Z.
Proof.
  induction m as [m IH|m IH|]; simpl digits2_pos.
  - rewrite Pos2Z.inj_succ. replace (Z.succ (Zpos (digits2_pos m)) - 1)%Z with (Z.succ (Zpos (digits2_pos m) - 1))%Z by lia.
    rewrite Z.pow_succ_r by lia. lia.
  - rewrite Pos2Z.inj_succ. replace (Z.succ (Zpos (digits2_pos m)) - 1)%Z with (Z.succ (Zpos (digits2_pos m) - 1))%Z by lia.
    rewrite Z.pow_succ_r by lia. lia.
  - simpl. lia.
Qed.

Lemma iter_xO_spec k : forall m,
  Zpos (Pos.iter xO m k) = (Zpos m * 2 ^ Zpos k)%Z
  /\ digits2_pos (Pos.iter xO m k) = (digits2_pos m + k)%positive.
Proof.
  induction k as [|k IH] using Pos.peano_ind; intros m.
  - simpl. split; lia.
  - rewrite Pos.iter_succ. destruct (IH m) as [E1 E2].
    simpl digits2_pos. rewrite E2. split; [|lia].
    rewrite Pos2Z.inj_xO, E1, Pos2Z.inj_succ, Z.pow_succ_r by lia. lia.
Qed.

Lemma fexp_binary64 e : fexp prec emax e = Z.max (e - 53) (-1074).
Proof. reflexivity. Qed.

Lemma binary_round_aux_canonical s m e :
  Zpos (digits2_pos m) = 53%Z -> (-1074 <= e <= 971)%Z ->
  binary_round_aux prec emax s (Zpos m) e loc_Exact = S754_finite s m e.
Proof.
  intros Hd He.
  assert (Hf : (fexp prec emax (Zdigits2 (Zpos m) + e) - e = 0)%Z).
  { rewrite fexp_binary64. cbn [Zdigits2]. rewrite Hd. clear Hd. lia. }
  unfold binary_round_aux, shr_fexp.
  rewrite Hf. cbn [shr shr_record_of_loc shr_m loc_of_shr_record round_nearest_even].
  rewrite Hf. cbn [shr shr_record_of_loc shr_m].
  replace (Z.leb e (emax - prec)) with true; [reflexivity|].
  symmetry. apply Z.leb_le. unfold emax, prec. lia.
Qed.

(** A positive integer below 2^53 is kept as it is, its mantissa shifted to
    53 bits. *)
Lemma number_of_Z_shape m :
  (Zpos m < 2 ^ 53)%Z ->
  exists mz e, number_of_Z (Zpos m) = S754_finite false mz e
               /\ (e <= 0)%Z /\ Zpos mz = (Zpos m * 2 ^ (- e))%Z.
Proof.
  intros Hm. assert (Hd := digits2_pos_lower m).
  assert (Hd53 : (Zpos (digits2_pos m) <= 53)%Z).
  { destruct (Z_le_gt_dec (Zpos (digits2_pos m)) 53) as [|G]; [assumption|].
    assert (2 ^ 53 <= 2 ^ (Zpos (digits2_pos m) - 1))%Z by (apply Z.pow_le_mono_r; lia).
    lia. }
  unfold number_of_Z, binary_normalize, binary_round.
  assert (Hf : fexp prec emax (Zpos (digits2_pos m) + 0) = (Zpos (digits2_pos m) - 53)%Z).
  { rewrite fexp_binary64. lia. }
  rewrite Hf. unfold shl_align.
  destruct (Zpos (digits2_pos m) - 53 - 0)%Z as [|d|d] eqn:Ed; try lia.
  - rewrite binary_round_aux_canonical by lia.
    exists m, 0%Z. split; [reflexivity|]. split; [lia|]. simpl. lia.
  - destruct (iter_xO_spec d m) as [E1 E2].
    rewrite binary_round_aux_canonical by (rewrite ?E2; lia).
    exists (Pos.iter xO m d), (Zpos (digits2_pos m) - 53)%Z.
    split; [reflexivity|]. split; [lia|].
    rewrite E1. f_equal. f_equal. lia.
Qed.

Lemma number_of_Z_pos m :
  (Zpos m < 2 ^ 53)%Z ->
  integer_value (number_of_Z (Zpos m)) = Some (Zpos m).
Proof.
  intros Hm. destruct (number_of_Z_shape Hm) as (mz & e & -> & He & Hmz).
  unfold integer_value. destruct (0 <=? e)%Z eqn:E.
  - apply Z.leb_le in E. assert (e = 0)%Z as -> by lia.
    simpl in Hmz. f_equal. simpl. lia.
  - rewrite Hmz, Z.mod_mul, Z.div_mul by (apply Z.pow_nonzero; lia).
    reflexivity.
Qed.

Lemma number_of_Z_exact z :
  (0 <= z <= 2 ^ 53)%Z -> integer_value (number_of_Z z) = Some z.
Proof.
  intros Hz. destruct (Z.eq_dec z (2 ^ 53)) as [->|Hne].
  - vm_compute. reflexivity.
  - destruct z as [|m|m]; [reflexivity | apply number_of_Z_pos; lia | lia].
Qed.

(** ** Decimal numerals *)

Lemma digits_of_acc fuel : forall n acc,
  digits_of fuel n acc = digits_of fuel n "" ++ acc.
Proof.
  induction fuel as [|fuel IH]; intros n acc; simpl; [reflexivity|].
  destruct (n / 10 =? 0)%N; [reflexivity|].
  rewrite IH, (IH _ (String _ "")), append_assoc. reflexivity.
Qed.

Lemma digits_of_fuel f1 : forall f2 n acc,
  f1 <> 0 -> f2 <> 0 ->
  (n < 10 ^ N.of_nat f1)%N -> (n < 10 ^ N.of_nat f2)%N ->
  digits_of f1 n acc = digits_of f2 n acc.
Proof.
  induction f1 as [|f1 IH]; intros f2 n acc N1 N2 H1 H2; [congruence|].
  destruct f2 as [|f2]; [congruence|].
  simpl. destruct (n / 10 =? 0)%N eqn:E; [reflexivity|].
  apply N.eqb_neq in E.
  rewrite Nat2N.inj_succ, N.pow_succ_r' in H1, H2.
  assert (Q1 : (n / 10 < 10 ^ N.of_nat f1)%N)
    by (apply N.Div0.div_lt_upper_bound; exact H1).
  assert (Q2 : (n / 10 < 10 ^ N.of_nat f2)%N)
    by (apply N.Div0.div_lt_upper_bound; exact H2).
  apply IH; try assumption.
  - intros ->. change (10 ^ N.of_nat 0)%N with 1%N in Q1.
    apply E. apply N.lt_1_r. exact Q1.
  - intros ->. change (10 ^ N.of_nat 0)%N with 1%N in Q2.
    apply E. apply N.lt_1_r. exact Q2.
Qed.

Lemma decimal_fuel (n : N) : (n < 10 ^ N.of_nat (S (N.to_nat (N.log2 n))))%N.
Proof.
  rewrite Nat2N.inj_succ, N2Nat.id.
  destruct n as [|p]; [reflexivity|].
  assert (H := N.log2_spec (Npos p) eq_refl).
  assert (2 ^ N.succ (N.log2 (N.pos p)) <= 10 ^ N.succ (N.log2 (N.pos p)))%N
    by (apply N.pow_le_mono_l; lia).
  lia.
Qed.

Lemma decimal_string_fuel n fuel :
  fuel <> 0 -> (n < 10 ^ N.of_nat fuel)%N ->
  decimal_string n = digits_of fuel n "".
Proof.
  intros N0 H. unfold decimal_string.
  apply digits_of_fuel; [lia | exact N0 | apply decimal_fuel | exact H].
Qed.

Lemma digits_of_S fuel n acc :
  digits_of (S fuel) n acc =
  if (n / 10 =? 0)%N then String (digit_char (n mod 10)) acc
  else digits_of fuel (n / 10) (String (digit_char (n mod 10)) acc).
Proof. reflexivity. Qed.

Lemma decimal_string_times_10 (s : N) :
  (1 <= s)%N -> decimal_string (10 * s) = decimal_string s ++ "0".
Proof.
  intros Hs.
  assert (Hf := decimal_fuel s).
  rewrite (@decimal_string_fuel (10 * s) (S (S (N.to_nat (N.log2 s))))).
  2: lia.
  2:{ rewrite Nat2N.inj_succ, N.pow_succ_r'. lia. }
  rewrite digits_of_S.
  replace (10 * s / 10)%N with s by (rewrite N.mul_comm, N.div_mul; lia).
  replace (10 * s mod 10)%N with 0%N by (rewrite N.mul_comm, N.Div0.mod_mul; lia).
  replace (s =? 0)%N with false by (symmetry; apply N.eqb_neq; lia).
  rewrite digits_of_acc. reflexivity.
Qed.

Lemma zeros_snoc t : zeros t ++ "0" = zeros (S t).
Proof. induction t as [|t IH]; simpl; [reflexivity | now rewrite IH]. Qed.

Lemma decimal_string_times_pow10 (s : N) (t : nat) :
  (1 <= s)%N ->
  decimal_string (s * 10 ^ N.of_nat t) = decimal_string s ++ zeros t.
Proof.
  intros Hs. induction t as [|t IH].
  - simpl. now rewrite N.mul_1_r, append_nil_r.
  - rewrite Nat2N.inj_succ, N.pow_succ_r'.
    replace (s * (10 * 10 ^ N.of_nat t))%N with (10 * (s * 10 ^ N.of_nat t))%N by lia.
    rewrite decimal_string_times_10, IH, append_assoc, zeros_snoc; [reflexivity|].
    assert (0 < 10 ^ N.of_nat t)%N by (apply N.neq_0_lt_0, N.pow_nonzero; lia).
    nia.
Qed.

Lemma length_zeros t : String.length (zeros t) = t.
Proof. induction t; simpl; congruence. Qed.

(** The numeral of [n] has as many digits as [n] needs. *)
Lemma digits_of_bounds fuel : forall n acc,
  (n < 10 ^ N.of_nat fuel)%N -> (1 <= n)%N ->
  let d := N.of_nat (String.length (digits_of fuel n acc) - String.length acc) in
  (10 ^ (d - 1) <= n < 10 ^ d)%N /\ (1 <= d)%N.
Proof.
  induction fuel as [|fuel IH]; intros n acc Hn H1.
  - change (10 ^ N.of_nat 0)%N with 1%N in Hn. lia.
  - cbv zeta. rewrite digits_of_S. destruct (n / 10 =? 0)%N eqn:E.
    + apply N.eqb_eq in E. cbn [String.length].
      replace (S (String.length acc) - String.length acc) with 1 by lia.
      assert (n < 10)%N by (apply N.div_small_iff in E; lia).
      simpl. lia.
    + apply N.eqb_neq in E.
      assert (Hq : (n / 10 < 10 ^ N.of_nat fuel)%N).
      { rewrite Nat2N.inj_succ, N.pow_succ_r' in Hn.
        apply N.Div0.div_lt_upper_bound. exact Hn. }
      assert (Hdiv := N.Div0.div_mod n 10).
      assert (Hmod := N.mod_upper_bound n 10 ltac:(discriminate)).
      set (q := (n / 10)%N) in *. set (r := (n mod 10)%N) in *.
      clearbody q r.
      destruct (IH q (String (digit_char r) acc) Hq ltac:(lia))
        as ((Hlo & Hhi) & Hd).
      cbn [String.length] in Hlo, Hhi, Hd.
      assert (Hlen : String.length (digits_of fuel q (String (digit_char r) acc))
                     >= S (String.length acc)).
      { rewrite digits_of_acc, length_append. simpl. lia. }
      set (L := String.length (digits_of fuel q (String (digit_char r) acc))) in *.
      clearbody L.
      replace (N.of_nat (L - String.length acc))
        with (N.succ (N.of_nat (L - S (String.length acc)))) by lia.
      set (d := N.of_nat (L - S (String.length acc))) in *. clearbody d.
      replace (N.succ d - 1)%N with (N.succ (d - 1)) by lia.
      rewrite !N.pow_succ_r'.
      split; [|lia]. split; lia.
Qed.

Lemma decimal_string_bounds (n : N) :
  (1 <= n)%N ->
  let d := N.of_nat (String.length (decimal_string n)) in
  (10 ^ (d - 1) <= n < 10 ^ d)%N /\ (1 <= d)%N.
Proof.
  intros H1.
  assert (H := @digits_of_bounds (S (N.to_nat (N.log2 n))) n "" (decimal_fuel n) H1).
  simpl String.length in H. rewrite Nat.sub_0_r in H. exact H.
Qed.

(** ** Number::toString on the integers up to 2^53 *)

(** Below, [mz * 2^e] with [e <= 0] is a binary64 value that is the
    integer [m]. *)

Open Scope Z_scope.

Lemma pow2_pos e : e <= 0 -> 0 < 2 ^ (- e).
Proof. intros. apply Z.pow_pos_nonneg; lia. Qed.

Lemma rounds_to_integer mz e m s t :
  e <= 0 -> 0 < m -> Zpos mz = m * 2 ^ (- e) ->
  0 <= t -> rounds_to mz e s t = (s * 10 ^ t =? m).
Proof.
  intros e_le_0 m_pos mz_m Ht. unfold rounds_to, fraction.
  replace (0 <=? e - 2) with false by (symmetry; apply Z.leb_gt; lia).
  replace (0 <=? t) with true by (symmetry; apply Z.leb_le; lia).
  replace (- (e - 2)) with (2 + - e) by lia.
  rewrite Z.pow_add_r by lia. change (2 ^ 2) with 4.
  assert (HQ := pow2_pos e_le_0). rewrite mz_m.
  set (Q := 2 ^ (- e)) in *. set (V := s * 10 ^ t). clearbody Q V.
  set (c := (_ =? 2 ^ (prec - 1)) && (_ <? e)). clearbody c.
  apply eq_true_iff_eq.
  destruct c; destruct (Z.even _);
    rewrite ?andb_true_iff, ?Z.leb_le, ?Z.ltb_lt, ?Z.eqb_eq;
    (split; [intros [H1 H2]; nia | intros ->; nia]).
Qed.

Lemma fraction_integer mz e m :
  e <= 0 -> 0 < m -> Zpos mz = m * 2 ^ (- e) ->
  exists p q, fraction mz e = (p, q) /\ 0 < q /\ p = m * q.
Proof.
  intros e_le_0 m_pos mz_m. unfold fraction. destruct (0 <=? e) eqn:E.
  - apply Z.leb_le in E. assert (e = 0) as E0 by lia.
    exists (Z.pos mz * 2 ^ e), 1. rewrite mz_m, E0. simpl. repeat split; lia.
  - exists (Z.pos mz), (2 ^ (- e)). split; [reflexivity|].
    split; [now apply pow2_pos | exact mz_m].
Qed.

Lemma candidates_integer mz e m q n k :
  e <= 0 -> 0 < m -> Zpos mz = m * 2 ^ (- e) ->
  0 < q -> 0 <= n - k ->
  filter (fun s => rounds_to mz e s (n - k)) (candidates (m * q) q n k) =
  if (m mod 10 ^ (n - k) =? 0) then [m / 10 ^ (n - k)] else [].
Proof.
  intros e_le_0 m_pos mz_m Hq Ht. unfold candidates.
  replace (0 <=? n - k) with true by (symmetry; apply Z.leb_le; lia).
  set (T := 10 ^ (n - k)).
  assert (HT : 0 < T) by (apply Z.pow_pos_nonneg; lia).
  replace (m * q / (q * T)) with (m / T)
    by (rewrite (Z.mul_comm m q), Z.div_mul_cancel_l; lia).
  replace ((m * q) mod (q * T)) with (q * (m mod T))
    by (rewrite (Z.mul_comm m q), Z.mul_mod_distr_l; lia).
  assert (Hdiv := Z.div_mod m T ltac:(lia)).
  assert (Hmod := Z.mod_pos_bound m T HT).
  set (s := m / T) in *. set (r := m mod T) in *. clearbody s r.
  assert (Hhi : rounds_to mz e (s + 1) (n - k) = false).
  { rewrite (@rounds_to_integer mz e m) by (assumption || lia). apply Z.eqb_neq. fold T. nia. }
  assert (Hlo : rounds_to mz e s (n - k) = (r =? 0)).
  { rewrite (@rounds_to_integer mz e m) by (assumption || lia). fold T.
    apply eq_true_iff_eq. rewrite !Z.eqb_eq. nia. }
  destruct (2 * (q * r) <? q * T); [|destruct (q * T <? 2 * (q * r)); [|destruct (Z.even s)]];
    cbn [filter]; rewrite Hhi, Hlo; destruct (r =? 0); reflexivity.
Qed.

Lemma shortest_eq fuel mz e p q n k :
  shortest fuel mz e p q n k =
  match filter (fun s => rounds_to mz e s (n - k)) (candidates p q n k), fuel with
  | s :: _, _ => if (s =? 10 ^ k) then (10 ^ (k - 1), n + 1) else (s, n)
  | [], S fuel' => shortest fuel' mz e p q n (k + 1)
  | [], O => (fst (fraction mz e) / snd (fraction mz e), n)
  end.
Proof. destruct fuel; reflexivity. Qed.

Lemma shortest_integer mz e m q n fuel : forall k,
  e <= 0 -> 0 < m -> Zpos mz = m * 2 ^ (- e) ->
  0 < q -> 1 <= k <= n -> n - k <= Z.of_nat fuel -> m < 10 ^ n ->
  exists s, shortest fuel mz e (m * q) q n k = (s, n)
            /\ 1 <= s /\ exists t, 0 <= t /\ s * 10 ^ t = m /\ (s < 10 ^ (n - t)).
Proof.
  induction fuel as [|fuel IH]; intros k e_le_0 m_pos mz_m Hq Hk Hfuel Hm;
    rewrite shortest_eq, (@candidates_integer mz e m) by (assumption || lia);
    set (T := 10 ^ (n - k));
    assert (HT : 0 < T) by (apply Z.pow_pos_nonneg; lia);
    assert (Hdiv := Z.div_mod m T ltac:(lia));
    assert (Hmod := Z.mod_pos_bound m T HT);
    assert (Hsplit : 10 ^ n = 10 ^ k * T)
      by (unfold T; rewrite <- Z.pow_add_r by lia; f_equal; lia);
    destruct (m mod T =? 0) eqn:E.
  1, 3:
    (apply Z.eqb_eq in E;
     assert (Hs : m / T < 10 ^ k) by nia;
     replace (m / T =? 10 ^ k) with false by (symmetry; apply Z.eqb_neq; lia);
     exists (m / T); split; [reflexivity|]; split; [nia|];
     exists (n - k); split; [lia|]; split; [fold T; nia|];
     replace (n - (n - k)) with k by lia; exact Hs).
  - (* no fuel left: k = n, and everything divides 10^0 *)
    exfalso. assert (n - k = 0) by lia. unfold T in E.
    replace (n - k) with 0 in E by lia. rewrite Z.mod_1_r in E. discriminate.
  - assert (n - k <> 0).
    { intros H0. unfold T in E. rewrite H0, Z.mod_1_r in E. discriminate. }
    apply IH; (assumption || lia).
Qed.

Close Scope Z_scope.

Lemma Number_toString_integer mz e m :
  (e <= 0)%Z -> (0 < m <= 2 ^ 53)%Z -> Zpos mz = (m * 2 ^ (- e))%Z ->
  Number_toString (S754_finite false mz e) = decimal_string (Z.to_N m).
Proof.
  intros He Hm Hmz. unfold Number_toString.
  destruct (@fraction_integer mz e m He ltac:(lia) Hmz) as (p & q & -> & Hq & ->).
  assert (H1 : (1 <= Z.to_N m)%N) by lia.
  destruct (decimal_string_bounds H1) as ((Hlo & Hhi) & Hd).
  set (L := String.length (decimal_string (Z.to_N m))) in *.
  assert (Hn : decimal_exponent (m * q) q = Z.of_nat L).
  { unfold decimal_exponent.
    replace (q <=? m * q)%Z with true by (symmetry; apply Z.leb_le; nia).
    rewrite Z.div_mul by lia. reflexivity. }
  rewrite Hn.
  assert (HmL : (m < 10 ^ Z.of_nat L)%Z).
  { replace m with (Z.of_N (Z.to_N m)) by lia.
    replace (10 ^ Z.of_nat L)%Z with (Z.of_N (10 ^ N.of_nat L)) by (rewrite N2Z.inj_pow; f_equal; lia).
    lia. }
  assert (HL : (Z.of_nat L <= 17)%Z).
  { destruct (Z_le_gt_dec (Z.of_nat L) 17) as [|G]; [assumption|].
    assert (10 ^ 17 <= 10 ^ (N.of_nat L - 1))%N by (apply N.pow_le_mono_r; lia).
    assert (Z.to_N m <= 2 ^ 53)%N by (change (2 ^ 53)%N with (Z.to_N (2 ^ 53)); lia).
    assert (2 ^ 53 < 10 ^ 17)%N by reflexivity. lia. }
  destruct (@shortest_integer mz e m q (Z.of_nat L) 17 1%Z)
    as (s & -> & Hs & t & Ht & Hst & _); try (assumption || lia).
  cbn [append].
  assert (Hdec : decimal_string (Z.to_N m)
                 = decimal_string (Z.to_N s) ++ zeros (Z.to_nat t)).
  { rewrite <- Hst.
    replace (Z.to_N (s * 10 ^ t)) with (Z.to_N s * 10 ^ N.of_nat (Z.to_nat t))%N.
    - apply decimal_string_times_pow10. lia.
    - rewrite Z2N.inj_mul, Z2N.inj_pow by (try apply Z.pow_nonneg; lia).
      f_equal. f_equal. lia. }
  assert (HLk : L = String.length (decimal_string (Z.to_N s)) + Z.to_nat t).
  { unfold L. now rewrite Hdec, length_append, length_zeros. }
  unfold place_digits.
  set (k := String.length (decimal_string (Z.to_N s))) in *.
  replace ((Z.of_nat k <=? Z.of_nat L) && (Z.of_nat L <=? 21))%Z with true.
  - rewrite Hdec. f_equal. f_equal. lia.
  - symmetry. apply andb_true_iff. split; apply Z.leb_le; lia.
Qed.

(** An integer from 0 to 2^53 prints as its decimal numeral. *)
Lemma Number_toString_number_of_Z z :
  (0 <= z <= 2 ^ 53)%Z ->
  Number_toString (number_of_Z z) = decimal_string (Z.to_N z).
Proof.
  intros Hz. destruct (Z.eq_dec z (2 ^ 53)) as [->|Hne]; [vm_compute; reflexivity|].
  destruct z as [|m|m]; [reflexivity | | lia].
  destruct (@number_of_Z_shape m ltac:(lia)) as (mz & e & -> & He & Hmz).
  apply Number_toString_integer; [exact He | lia | exact Hmz].
Qed.

(** ** The token metadata name pattern *)

Lemma path_Seq_inv r1 r2 a c :
  path (Seq r1 r2) a c -> exists b, path r1 a b /\ path r2 b c.
Proof. inversion 1; subst; eauto. Qed.

Lemma path_Group_inv i r a c :
  path (Group i r) a c -> exists b, path r a b /\ c = set_cap i a b.
Proof. inversion 1; subst; eauto. Qed.

Lemma path_Bol_inv a b : path Bol a b -> b = a /\ pos a = 0.
Proof. inversion 1; subst; auto. Qed.

Lemma path_Eol_inv a b : path Eol a b -> b = a /\ rest a = "".
Proof. inversion 1; subst; auto. Qed.

Lemma path_Alt_inv r1 r2 a b :
  path (Alt r1 r2) a b -> path r1 a b \/ path r2 a b.
Proof. inversion 1; subst; auto. Qed.

(** A capture group around a pattern that only reads [w] records [w]. *)
Lemma set_cap_consumes i w a b :
  consumes w a b ->
  set_cap i a b = MState (pos b) (rest b) ((i, w) :: caps a).
Proof.
  intros (E & L & C). unfold set_cap.
  replace (pos b - pos a) with (String.length w) by lia.
  now rewrite E, take_append, C.
Qed.

Lemma nonempty_length (s : string) : s <> "" <-> 1 <= String.length s.
Proof.
  destruct s; simpl; split; intros H; try congruence; try lia.
Qed.

Lemma token_path_inv i s st' :
  path tokenMetadataNamePattern (MState i (drop i s) []) st' ->
  exists ds, tokenMetadataName s ds /\ caps st' = [(1, ds)].
Proof.
  unfold tokenMetadataNamePattern. intros H.
  apply path_Seq_inv in H as (a & Hbol & H).
  apply path_Bol_inv in Hbol as (-> & Hi). simpl in Hi. subst i. simpl drop in H.
  apply path_Seq_inv in H as (b & Hg & H).
  apply path_Group_inv in Hg as (b1 & Hd & ->).
  apply path_AtLeast_Class_iff in Hd as (ds & L & Hds & Hc).
  rewrite (set_cap_consumes 1 Hc) in H.
  apply path_Seq_inv in H as (c & Hl & He).
  apply path_Lit_iff in Hl as (El & _ & Cl).
  apply path_Eol_inv in He as (-> & Ee).
  destruct Hc as (Ec & _). simpl in *.
  exists ds. split; [|assumption].
  split; [now apply nonempty_length|]. split; [assumption|].
  rewrite Ec, El, Ee. reflexivity.
Qed.

Lemma token_path_intro ds :
  ds <> "" -> forall_chars digit ds = true ->
  exists st', path tokenMetadataNamePattern (MState 0 (ds ++ ".json") []) st'.
Proof.
  intros Hne Hds. apply nonempty_length in Hne.
  set (a := MState 0 (ds ++ ".json") []).
  set (b1 := MState (String.length ds) ".json" []).
  assert (Hc : consumes ds a b1) by (unfold consumes; simpl; auto).
  exists (MState (String.length ds + 5) "" [(1, ds)]).
  unfold tokenMetadataNamePattern.
  apply path_Seq with (b := a); [now constructor|].
  apply path_Seq with (b := set_cap 1 a b1).
  - constructor. apply path_AtLeast_Class_iff. eauto.
  - rewrite (set_cap_consumes 1 Hc).
    apply path_Seq with (b := MState (String.length ds + 5) "" [(1, ds)]);
      [|apply path_Eol; reflexivity].
    apply (proj2 (path_Lit_iff ".json" _ _)). unfold consumes; simpl. auto.
Qed.

Lemma exec_token_sound s m :
  exec tokenMetadataNamePattern s = Some m ->
  exists ds, tokenMetadataName s ds /\ group 1 m = Some ds.
Proof.
  intros H. apply exec_sound in H as (i & st' & _ & Hp & ->).
  apply token_path_inv in Hp as (ds & Hn & Hc).
  exists ds. split; [assumption|]. unfold group. simpl. now rewrite Hc.
Qed.

Lemma exec_token_complete s ds :
  tokenMetadataName s ds -> exists m, exec tokenMetadataNamePattern s = Some m.
Proof.
  intros (Hne & Hds & ->).
  destruct (token_path_intro Hne Hds) as (st' & Hp).
  apply (@exec_complete _ (ds ++ ".json") 0 st'); [lia | exact Hp].
Qed.

Lemma tokenMetadataName_unique s ds ds' :
  tokenMetadataName s ds -> tokenMetadataName s ds' -> ds = ds'.
Proof.
  intros (_ & _ & ->) (_ & _ & E). exact (append_cancel_r _ _ _ E).
Qed.

Lemma parseTokenMetadataName_iff s idx :
  parseTokenMetadataName s = Some idx <->
  exists ds, tokenMetadataName s ds /\ idx = js_Number ds.
Proof.
  unfold parseTokenMetadataName. split.
  - destruct (exec tokenMetadataNamePattern s) as [m|] eqn:E; [|discriminate].
    intros [= <-]. apply exec_token_sound in E as (ds & Hn & ->). eauto.
  - intros (ds & Hn & ->).
    destruct (exec_token_complete Hn) as (m & E). rewrite E.
    apply exec_token_sound in E as (ds' & Hn' & ->).
    now rewrite (tokenMetadataName_unique Hn Hn').
Qed.

(** C5 (amended).  [parseTokenMetadataName s] succeeds exactly when [s]
    matches [^\d+\.json$]; the index is then [Number] of the digits, which
    is the digits read as a decimal integer whenever that integer is at most
    2^53 (so "007.json" gives 7).  Beyond 2^53 the index is the nearest
    binary64 value.  The function is a total Rocq function, hence pure and
    total. *)
Theorem parseTokenMetadataName_spec (s : string) :
  (parseTokenMetadataName s <> None <-> exists ds, tokenMetadataName s ds)
  /\ (forall ds, tokenMetadataName s ds ->
        parseTokenMetadataName s = Some (js_Number ds))
  /\ (forall ds, tokenMetadataName s ds ->
        (decimal_value ds <= 2 ^ 53)%N ->
        integer_value (js_Number ds) = Some (Z.of_N (decimal_value ds))).
Proof.
  split; [|split].
  - split.
    + destruct (parseTokenMetadataName s) as [idx|] eqn:E; [|congruence].
      intros _. apply parseTokenMetadataName_iff in E as (ds & Hn & _). eauto.
    + intros (ds & Hn).
      assert (E : parseTokenMetadataName s = Some (js_Number ds))
        by (apply parseTokenMetadataName_iff; eauto).
      congruence.
  - intros ds Hn. apply parseTokenMetadataName_iff. eauto.
  - intros ds (_ & Hds & _) Hle. unfold js_Number. rewrite Hds.
    apply number_of_Z_exact. change (2 ^ 53)%Z with (Z.of_N (2 ^ 53)). lia.
Qed.

Lemma parseTokenMetadataName_spec_witness :
  parseTokenMetadataName "007.json" = Some (js_Number "007")
  /\ integer_value (js_Number "007") = Some 7%Z.
Proof.
  assert (Hn : tokenMetadataName "007.json" "007")
    by (split; [discriminate | split; reflexivity]).
  destruct (parseTokenMetadataName_spec "007.json") as (_ & Hidx & Hval).
  split.
  - exact (Hidx "007" Hn).
  - apply (Hval "007" Hn). vm_compute. discriminate.
Defined.

(** C5, as stated, fails: the digits of "9007199254740993.json" are not
    the index, which is 9007199254740992. *)
Lemma parseTokenMetadataName_not_exact :
  ~ (forall s ds idx,
       tokenMetadataName s ds -> parseTokenMetadataName s = Some idx ->
       integer_value idx = Some (Z.of_N (decimal_value ds))).
Proof.
  intros H.
  specialize (H "9007199254740993.json" "9007199254740993"
                (S754_finite false 4503599627370496 1)).
  assert (Hn : tokenMetadataName "9007199254740993.json" "9007199254740993")
    by (split; [discriminate | split; reflexivity]).
  specialize (H Hn ltac:(vm_compute; reflexivity)).
  vm_compute in H. discriminate.
Qed.

(** ** The media name pattern *)

Lemma path_Empty_inv a b : path Empty a b -> b = a.
Proof. inversion 1; subst; auto. Qed.

Lemma path_category_inv a b :
  path (Alt (Lit "image") (Alt (Lit "asset") (Lit "icon"))) a b ->
  exists c, consumes (categoryName c) a b.
Proof.
  intros H. apply path_Alt_inv in H as [H|H]; [|apply path_Alt_inv in H as [H|H]];
    apply path_Lit_iff in H.
  - now exists image.
  - now exists asset.
  - now exists icon.
Qed.

Lemma path_category_intro c a b :
  consumes (categoryName c) a b ->
  path (Alt (Lit "image") (Alt (Lit "asset") (Lit "icon"))) a b.
Proof.
  intros H. destruct c.
  - apply path_AltL. now apply path_Lit_iff.
  - apply path_AltR, path_AltL. now apply path_Lit_iff.
  - apply path_AltR, path_AltR. now apply path_Lit_iff.
Qed.

Lemma path_Plus_group_inv i p a c :
  path (Group i (Plus (Class p))) a c ->
  exists w, w <> "" /\ forall_chars p w = true
            /\ rest a = w ++ rest c
            /\ caps c = (i, w) :: caps a.
Proof.
  intros H. apply path_Group_inv in H as (b & H & ->).
  apply path_AtLeast_Class_iff in H as (w & L & Hw & Hc).
  rewrite (set_cap_consumes i Hc). destruct Hc as (E & _). simpl.
  exists w. split; [now apply nonempty_length|]. auto.
Qed.

Lemma path_Plus_group_intro i p w a s :
  w <> "" -> forall_chars p w = true -> rest a = w ++ s ->
  path (Group i (Plus (Class p))) a
       (MState (pos a + String.length w) s ((i, w) :: caps a)).
Proof.
  intros Hne Hw E.
  set (b := MState (pos a + String.length w) s (caps a)).
  assert (Hc : consumes w a b) by (unfold consumes; simpl; auto).
  replace (MState (pos a + String.length w) s ((i, w) :: caps a))
    with (set_cap i a b) by (rewrite (set_cap_consumes i Hc); reflexivity).
  apply path_Group, path_AtLeast_Class_iff. exists w.
  split; [now apply nonempty_length|]. auto.
Qed.

Lemma media_path_inv i s st' :
  path mediaNamePattern (MState i (drop i s) []) st' ->
  exists c ds ext,
    mediaName s c ds ext
    /\ capture 1 (caps st') = option_map categoryName c
    /\ capture 2 (caps st') = Some ds
    /\ capture 3 (caps st') = Some ext.
Proof.
  unfold mediaNamePattern. intros H.
  apply path_Seq_inv in H as (a & Hbol & H).
  apply path_Bol_inv in Hbol as (-> & Hi). simpl in Hi. subst i. simpl drop in H.
  apply path_Seq_inv in H as (b & Hopt & H).
  apply path_Seq_inv in H as (c2 & Hds & H).
  apply path_Seq_inv in H as (c3 & Hdot & H).
  apply path_Seq_inv in H as (c4 & Hext & Heol).
  apply path_Plus_group_inv in Hds as (ds & Hne & Hd & Eds & Cds).
  apply path_Lit_iff in Hdot as (Edot & _ & Cdot).
  apply path_Plus_group_inv in Hext as (ext & Hnee & He & Eext & Cext).
  apply path_Eol_inv in Heol as (Est & Eeol). subst c4.
  rewrite Eeol, append_nil_r in Eext.
  assert (Htail : rest b = ds ++ "." ++ ext) by (rewrite Eds, Edot, Eext; reflexivity).
  assert (Hcaps : caps st' = (3, ext) :: (2, ds) :: caps b) by congruence.
  apply path_Alt_inv in Hopt as [Hopt|Hopt].
  - apply path_Seq_inv in Hopt as (b1 & Hcat & Hdash).
    apply path_Group_inv in Hcat as (b0 & Hcat & ->).
    apply path_category_inv in Hcat as (c & Hc).
    rewrite (set_cap_consumes 1 Hc) in Hdash.
    apply path_Lit_iff in Hdash as (Edash & _ & Cdash).
    destruct Hc as (Ec & _). simpl in Ec, Edash, Cdash.
    exists (Some c), ds, ext. split.
    + repeat (split; [assumption|]).
      rewrite Ec, Edash. simpl categoryPrefix. rewrite append_assoc.
      simpl. now rewrite Htail.
    + rewrite Hcaps, Cdash. repeat split.
  - apply path_Empty_inv in Hopt as ->. simpl in Htail, Hcaps.
    exists None, ds, ext. split.
    + repeat (split; [assumption|]). exact Htail.
    + rewrite Hcaps. repeat split.
Qed.

Lemma media_path_intro s c ds ext :
  mediaName s c ds ext ->
  exists st', path mediaNamePattern (MState 0 s []) st'.
Proof.
  intros (Hne & Hd & Hnee & He & ->).
  set (a := MState 0 (categoryPrefix c ++ ds ++ "." ++ ext) []).
  assert (Hopt : exists b,
             path (Opt (Seq (Group 1 (Alt (Lit "image")
                                     (Alt (Lit "asset") (Lit "icon"))))
                            (Lit "-"))) a b
             /\ rest b = ds ++ "." ++ ext).
  { destruct c as [c|].
    - set (b0 := MState (String.length (categoryName c))
                        ("-" ++ ds ++ "." ++ ext) []).
      assert (Hc : consumes (categoryName c) a b0).
      { unfold consumes, a, b0. simpl. rewrite append_assoc. auto. }
      exists (MState (String.length (categoryName c) + 1) (ds ++ "." ++ ext)
                     [(1, categoryName c)]).
      split; [|reflexivity].
      apply path_AltL. apply path_Seq with (b := set_cap 1 a b0).
      + apply path_Group. exact (path_category_intro c Hc).
      + rewrite (set_cap_consumes 1 Hc). apply path_Lit_iff.
        unfold consumes. simpl. auto.
    - exists a. split; [apply path_AltR; constructor | reflexivity]. }
  destruct Hopt as (b & Hopt & Eb).
  set (b2 := MState (pos b + String.length ds) ("." ++ ext) ((2, ds) :: caps b)).
  set (b3 := MState (pos b2 + 1) ext (caps b2)).
  set (b4 := MState (pos b3 + String.length ext) "" ((3, ext) :: caps b3)).
  exists b4. unfold mediaNamePattern.
  apply path_Seq with (b := a); [now constructor|].
  apply path_Seq with (b := b); [exact Hopt|].
  apply path_Seq with (b := b2);
    [exact (@path_Plus_group_intro 2 digit ds b ("." ++ ext) Hne Hd Eb)|].
  apply path_Seq with (b := b3).
  { apply path_Lit_iff. unfold consumes. simpl. auto. }
  apply path_Seq with (b := b4).
  - apply (@path_Plus_group_intro 3 lower ext b3 "");
      [assumption | assumption | cbn [rest b3]; now rewrite append_nil_r].
  - apply path_Eol. reflexivity.
Qed.

Lemma digits_then_dot ds : forall ds' r r',
  forall_chars digit ds = true -> forall_chars digit ds' = true ->
  ds ++ "." ++ r = ds' ++ "." ++ r' -> ds = ds' /\ r = r'.
Proof.
  induction ds as [|c ds IH]; intros [|c' ds'] r r' Hd Hd' E; simpl in *.
  - injection E as ->. auto.
  - injection E as <- _. discriminate.
  - injection E as -> _. discriminate.
  - injection E as <- E.
    apply andb_true_iff in Hd as (_ & Hd), Hd' as (_ & Hd').
    destruct (IH ds' r r' Hd Hd' E) as [-> ->]. auto.
Qed.

Lemma mediaName_unique s c ds ext c' ds' ext' :
  mediaName s c ds ext -> mediaName s c' ds' ext' ->
  c = c' /\ ds = ds' /\ ext = ext'.
Proof.
  intros (Hne & Hd & _ & _ & ->) (Hne' & Hd' & _ & _ & E).
  assert (Hcat : c = c').
  { destruct ds as [|d ds]; [congruence|]. destruct ds' as [|d' ds']; [congruence|].
    simpl in Hd, Hd'.
    apply andb_true_iff in Hd as (Hd & _), Hd' as (Hd' & _).
    destruct c as [[]|], c' as [[]|]; simpl in E; try reflexivity;
      try (injection E; intros; subst; discriminate). }
  subst c'. apply append_same_length in E as (_ & E); [|reflexivity].
  destruct (digits_then_dot ds ds' ext ext' Hd Hd' E) as [-> ->]. auto.
Qed.

Section MediaNames.
Variable P : Platform.

(** X1.  A base name of the pattern's form is classified by its prefix, or,
    without one, as an image when its extension is supported and with a
    warning otherwise; any other base name is skipped silently. *)
Theorem parseMediaFile_spec (file : string) :
  (forall c ds ext,
     mediaName (path_basename P file) c ds ext ->
     parseMediaFile P file =
     match c with
     | Some category =>
         ([], Ok (Some {| media_file := file; media_category := category;
                          media_index := js_Number ds;
                          media_extension := ext |}))
     | None =>
         if isImageTypeSupported ext
         then ([], Ok (Some {| media_file := file; media_category := image;
                               media_index := js_Number ds;
                               media_extension := ext |}))
         else ([ConsoleWarn ("Unsupported image file type '" ++ ext ++ "': "
                             ++ file)], Ok None)
     end)
  /\ ((forall c ds ext, ~ mediaName (path_basename P file) c ds ext) ->
      parseMediaFile P file = ([], Ok None)).
Proof.
  split.
  - intros c ds ext Hn.
    destruct (media_path_intro Hn) as (st0 & Hp0).
    destruct (@exec_complete mediaNamePattern (path_basename P file) 0 st0
                ltac:(lia) Hp0) as (m & Em).
    unfold parseMediaFile. rewrite Em.
    apply exec_sound in Em as (i & st' & _ & Hp & ->).
    apply media_path_inv in Hp as (c' & ds' & ext' & Hn' & C1 & C2 & C3).
    destruct (mediaName_unique Hn Hn') as (<- & <- & <-).
    unfold group. cbn [match_groups]. rewrite C1, C2, C3.
    destruct c as [[]|]; cbn; reflexivity.
  - intros Hnone. unfold parseMediaFile.
    destruct (exec mediaNamePattern (path_basename P file)) as [m|] eqn:Em;
      [|reflexivity].
    apply exec_sound in Em as (i & st' & _ & Hp & _).
    apply media_path_inv in Hp as (c & ds & ext & Hn & _).
    exfalso. exact (Hnone c ds ext Hn).
Qed.

End MediaNames.

Lemma parseMediaFile_spec_witness :
  parseMediaFile example "art/image-007.png" =
  ([], Ok (Some {| media_file := "art/image-007.png"; media_category := image;
                   media_index := js_Number "007"; media_extension := "png" |})).
Proof.
  destruct (parseMediaFile_spec example "art/image-007.png") as (H & _).
  apply (H (Some image) "007" "png").
  repeat split; discriminate.
Defined.

(** ** The metadata scan *)

Section ScanFacts.
Variable P : Platform.

Lemma readMetadataDir_file_classify dir file result :
  readMetadataDir_file P dir file result =
  match classify P dir file with
  | Ignored => ([], Ok result)
  | Unreadable => ([], Throw (readError P dir file))
  | MissingField => ([missingWarning P dir file], Ok result)
  | Valid token => ([], Ok (result ++ [token])%list)
  end.
Proof.
  unfold readMetadataDir_file, classify, missingWarning, readError.
  destruct (exec _ _) as [info|]; [|reflexivity].
  destruct (readFile P _) as [data|e]; [|reflexivity].
  cbn. destruct (JSON_parse P _) as [metadata|e]; [|reflexivity].
  cbn. destruct (truthy (get_opt metadata "name"));
    destruct (truthy (get_opt metadata "image")); reflexivity.
Qed.

(** A scan in which no entry is unreadable keeps the valid entries, in
    listing order, and warns once for each entry that misses a field. *)
Lemma forEach_readable dir files : forall result,
  (forall f, In f files -> classify P dir f <> Unreadable) ->
  forEach (readMetadataDir_file P dir) files result =
  (warningsOf P dir files, Ok (result ++ tokensOf P dir files)%list).
Proof.
  induction files as [|f files IH]; intros result Hok; simpl.
  - unfold ret. now rewrite app_nil_r.
  - rewrite readMetadataDir_file_classify.
    assert (Hf := Hok f (or_introl eq_refl)).
    assert (Hrest : forall f', In f' files -> classify P dir f' <> Unreadable)
      by (intros f' Hin; apply Hok; now right).
    unfold warningsOf, tokensOf. simpl.
    destruct (classify P dir f) as [| | |token]; try congruence;
      unfold bind; rewrite (IH _ Hrest); simpl; try reflexivity.
    now rewrite <- app_assoc.
Qed.

(** A scan with an unreadable entry throws the error of the first one,
    after the warnings of the entries before it. *)
Lemma forEach_unreadable dir files : forall result f,
  In f files -> classify P dir f = Unreadable ->
  exists before f0 after,
    files = (before ++ f0 :: after)%list
    /\ classify P dir f0 = Unreadable
    /\ (forall f', In f' before -> classify P dir f' <> Unreadable)
    /\ forEach (readMetadataDir_file P dir) files result =
       (warningsOf P dir before, Throw (readError P dir f0)).
Proof.
  induction files as [|g files IH]; intros result f Hin Hf; [contradiction|].
  destruct (classify P dir g) eqn:Eg.
  1, 3, 4:
    (destruct Hin as [->|Hin]; [congruence|];
     simpl; rewrite readMetadataDir_file_classify, Eg; unfold bind;
     match goal with
     | |- context [forEach _ _ ?r] =>
         destruct (IH r f Hin Hf) as (before & f0 & after & -> & H0 & Hb & ->)
     end;
     exists (g :: before), f0, after;
     split; [reflexivity|]; split; [assumption|]; split;
     [intros f' [<-|Hf']; [congruence | now apply Hb]|];
     unfold warningsOf; simpl; rewrite Eg; reflexivity).
  exists [], g, files. split; [reflexivity|]. split; [assumption|].
  split; [intros f' []|].
  simpl. rewrite readMetadataDir_file_classify, Eg. reflexivity.
Qed.

Lemma readMetadataDir_listing dir files :
  readdir P dir = Ok files ->
  readMetadataDir P dir =
  try_catch (forEach (readMetadataDir_file P dir) files [])
    (fun e =>
       emit (ConsoleError e) ;;;
       throw (Error ("Failed to read tokens from metadata directory: " ++ dir))).
Proof.
  intros H. unfold readMetadataDir. rewrite H. unfold bind at 1, lift.
  destruct (forEach _ files []) as [t r]. reflexivity.
Qed.

Lemma classify_readable dir f :
  (exec tokenMetadataNamePattern (path_basename P (resolve P dir f)) <> None ->
   exists data metadata,
     readFile P (resolve P dir f) = Ok data
     /\ JSON_parse P (utf8_decode P data) = Ok metadata) ->
  classify P dir f <> Unreadable.
Proof.
  intros H. unfold classify.
  destruct (exec _ _) as [info|]; [|discriminate].
  destruct H as (data & metadata & -> & ->); [discriminate|].
  destruct (_ && _); discriminate.
Qed.

Lemma classify_valid dir f info data metadata :
  exec tokenMetadataNamePattern (path_basename P (resolve P dir f)) = Some info ->
  readFile P (resolve P dir f) = Ok data ->
  JSON_parse P (utf8_decode P data) = Ok metadata ->
  truthy (get_opt metadata "name") = true ->
  truthy (get_opt metadata "image") = true ->
  classify P dir f = Valid {| token_index := Number_of_group (group 1 info);
                            token_file := resolve P dir f;
                            token_metadata := metadata |}.
Proof. intros H1 H2 H3 H4 H5. unfold classify. now rewrite H1, H2, H3, H4, H5. Qed.

(** C4.  When the listing holds a file whose name matches the metadata
    pattern and whose content does not parse, the scan throws the
    directory-level error naming the directory, after logging the error
    naming the first such file; it returns no token collection, whatever
    the other files hold. *)
Theorem unparsable_metadata_aborts_scan dir files file data e :
  readdir P dir = Ok files ->
  In file files ->
  exec tokenMetadataNamePattern (path_basename P (resolve P dir file)) <> None ->
  readFile P (resolve P dir file) = Ok data ->
  JSON_parse P (utf8_decode P data) = Throw e ->
  exists t f0,
    In f0 files
    /\ readMetadataDir P dir =
       ((t ++ [ConsoleError (Error ("Failed to read token: " ++ resolve P dir f0))])%list,
        Throw (Error ("Failed to read tokens from metadata directory: " ++ dir))).
Proof.
  intros Hdir Hin Hname Hread Hparse.
  assert (Hc : classify P dir file = Unreadable).
  { unfold classify. destruct (exec _ _); [|congruence].
    now rewrite Hread, Hparse. }
  destruct (@forEach_unreadable dir files [] file Hin Hc)
    as (before & f0 & after & Hfiles & _ & _ & Hrun).
  exists (warningsOf P dir before), f0. split.
  - rewrite Hfiles. apply in_or_app. right. now left.
  - rewrite (@readMetadataDir_listing dir files Hdir), Hrun. reflexivity.
Qed.

(** C7.  In a directory whose matching files all parse, a file that lacks
    [name] or [image] is not fatal: the scan returns a collection, warns
    about the file, keeps no token of it, and keeps the token of every
    file that has both fields. *)
Theorem missing_field_skipped dir files file info data metadata :
  readdir P dir = Ok files ->
  (forall f, In f files ->
     exec tokenMetadataNamePattern (path_basename P (resolve P dir f)) <> None ->
     exists d m, readFile P (resolve P dir f) = Ok d
                 /\ JSON_parse P (utf8_decode P d) = Ok m) ->
  In file files ->
  exec tokenMetadataNamePattern (path_basename P (resolve P dir file)) = Some info ->
  readFile P (resolve P dir file) = Ok data ->
  JSON_parse P (utf8_decode P data) = Ok metadata ->
  get_opt metadata "name" = VUndefined \/ get_opt metadata "image" = VUndefined ->
  exists t tokens,
    readMetadataDir P dir = (t, Ok tokens)
    /\ In (ConsoleWarn ("Token is missing name and/or image: "
                        ++ resolve P dir file)) t
    /\ (forall e, ~ In (ConsoleError e) t)
    /\ (forall token, In token tokens -> token_file token <> resolve P dir file)
    /\ (forall f i d m,
          In f files ->
          exec tokenMetadataNamePattern (path_basename P (resolve P dir f)) = Some i ->
          readFile P (resolve P dir f) = Ok d ->
          JSON_parse P (utf8_decode P d) = Ok m ->
          truthy (get_opt m "name") = true ->
          truthy (get_opt m "image") = true ->
          In {| token_index := Number_of_group (group 1 i);
                token_file := resolve P dir f;
                token_metadata := m |} tokens).
Proof.
  intros Hdir Hall Hin Hname Hread Hparse Hmiss.
  assert (Hok : forall f, In f files -> classify P dir f <> Unreadable)
    by (intros f Hf; apply classify_readable; auto).
  assert (Hc : classify P dir file = MissingField).
  { unfold classify. rewrite Hname, Hread, Hparse.
    destruct Hmiss as [-> | ->]; simpl; [reflexivity | now rewrite andb_false_r]. }
  exists (warningsOf P dir files), (tokensOf P dir files).
  split; [|split; [|split; [|split]]].
  - rewrite (@readMetadataDir_listing dir files Hdir), (@forEach_readable dir files [] Hok).
    reflexivity.
  - apply in_flat_map. exists file. split; [assumption|].
    rewrite Hc. now left.
  - intros e0 He. apply in_flat_map in He as (f & _ & He).
    destruct (classify P dir f); simpl in He; try contradiction.
    destruct He as [He|[]]. discriminate.
  - intros token Htok. apply in_flat_map in Htok as (f & Hf & Htok).
    destruct (classify P dir f) as [| | |token'] eqn:Ef; simpl in Htok;
      try contradiction.
    destruct Htok as [<-|[]]. intros Hsame.
    assert (Hcf := Ef). unfold classify in Hcf.
    destruct (exec _ (path_basename P (resolve P dir f))) as [info'|];
      [|discriminate].
    destruct (readFile P (resolve P dir f)) as [data'|] eqn:Er; [|discriminate].
    destruct (JSON_parse P (utf8_decode P data')) as [m'|] eqn:Ep; [|discriminate].
    destruct (truthy (get_opt m' "name") && truthy (get_opt m' "image")) eqn:Et;
      [|discriminate].
    injection Hcf as <-. simpl in Hsame. rewrite Hsame, Hread in Er.
    injection Er as <-. rewrite Hparse in Ep. injection Ep as <-.
    destruct Hmiss as [Hm | Hm]; rewrite Hm in Et; simpl in Et;
      [discriminate | rewrite andb_false_r in Et; discriminate].
  - intros f i d m Hf H1 H2 H3 H4 H5. apply in_flat_map. exists f.
    split; [assumption|].
    rewrite (classify_valid _ _ H1 H2 H3 H4 H5). now left.
Qed.

(** C10.  The check is on truthiness: with [name] or [image] present but
    holding the empty string, zero, null or false, the file is skipped with
    the very warning of a file where the field is absent, and the collection
    is left as it was; with both fields truthy the token is appended. *)
Theorem required_fields_gate_on_truthiness dir file info data metadata result :
  exec tokenMetadataNamePattern (path_basename P (resolve P dir file)) = Some info ->
  readFile P (resolve P dir file) = Ok data ->
  JSON_parse P (utf8_decode P data) = Ok metadata ->
  (forall v,
     In v [VStr ""; VNum (S754_zero false); VNum (S754_zero true); VNull;
           VBool false; VUndefined] ->
     get_opt metadata "name" = v \/ get_opt metadata "image" = v ->
     readMetadataDir_file P dir file result =
     ([ConsoleWarn ("Token is missing name and/or image: " ++ resolve P dir file)],
      Ok result))
  /\ (truthy (get_opt metadata "name") = true ->
      truthy (get_opt metadata "image") = true ->
      readMetadataDir_file P dir file result =
      ([], Ok (result ++ [ {| token_index := Number_of_group (group 1 info);
                              token_file := resolve P dir file;
                              token_metadata := metadata |} ])%list)).
Proof.
  intros Hname Hread Hparse.
  rewrite readMetadataDir_file_classify. unfold classify.
  rewrite Hname, Hread, Hparse. split.
  - intros v Hv Hfield.
    assert (Hf : truthy v = false).
    { simpl in Hv. repeat (destruct Hv as [<-|Hv]; [reflexivity|]).
      contradiction. }
    destruct Hfield as [-> | ->]; rewrite Hf; simpl;
      [reflexivity | now rewrite andb_false_r].
  - intros -> ->. reflexivity.
Qed.

(** ** The media scan *)

Lemma readMediaDir_listing dir files :
  readdir P dir = Ok files ->
  readMediaDir P dir =
  try_catch (forEach (readMediaDir_file P dir) files [])
    (fun e =>
       emit (ConsoleError e) ;;;
       throw (Error ("Failed to read media from directory: " ++ dir))).
Proof.
  intros H. unfold readMediaDir. rewrite H. unfold bind at 1, lift.
  destruct (forEach _ files []) as [t r]. reflexivity.
Qed.

(** C6.  A file named icon-3.png is an icon of index 3 and extension png,
    5.jpg is an image, 5.xyz is refused with a warning, a name that
    matches no pattern is skipped without a warning, and a scan of a
    directory holding the four keeps the first two records only and warns
    once, about the unsupported extension. *)
Theorem media_classification dir f1 f2 f3 f4 :
  readdir P dir = Ok [f1; f2; f3; f4] ->
  path_basename P (resolve P dir f1) = "icon-3.png" ->
  path_basename P (resolve P dir f2) = "5.jpg" ->
  path_basename P (resolve P dir f3) = "5.xyz" ->
  exec mediaNamePattern (path_basename P (resolve P dir f4)) = None ->
  let r1 := {| media_file := resolve P dir f1; media_category := icon;
               media_index := number_of_Z 3; media_extension := "png" |} in
  let r2 := {| media_file := resolve P dir f2; media_category := image;
               media_index := number_of_Z 5; media_extension := "jpg" |} in
  let warning := ConsoleWarn ("Unsupported image file type 'xyz': "
                              ++ resolve P dir f3) in
  parseMediaFile P (resolve P dir f1) = ([], Ok (Some r1))
  /\ parseMediaFile P (resolve P dir f2) = ([], Ok (Some r2))
  /\ parseMediaFile P (resolve P dir f3) = ([warning], Ok None)
  /\ parseMediaFile P (resolve P dir f4) = ([], Ok None)
  /\ readMediaDir P dir = ([warning], Ok [r1; r2]).
Proof.
  intros Hdir H1 H2 H3 H4 r1 r2 warning.
  assert (E1 : parseMediaFile P (resolve P dir f1) = ([], Ok (Some r1)))
    by (unfold parseMediaFile; rewrite H1; reflexivity).
  assert (E2 : parseMediaFile P (resolve P dir f2) = ([], Ok (Some r2)))
    by (unfold parseMediaFile; rewrite H2; reflexivity).
  assert (E3 : parseMediaFile P (resolve P dir f3) = ([warning], Ok None))
    by (unfold parseMediaFile; rewrite H3; reflexivity).
  assert (E4 : parseMediaFile P (resolve P dir f4) = ([], Ok None))
    by (unfold parseMediaFile; rewrite H4; reflexivity).
  repeat (split; [assumption|]).
  rewrite (@readMediaDir_listing dir _ Hdir). simpl.
  unfold readMediaDir_file. rewrite E1, E2, E3, E4. reflexivity.
Qed.

End ScanFacts.

Lemma unparsable_metadata_aborts_scan_witness :
  exists t f0,
    In f0 ["1.json"; "2.json"]
    /\ readMetadataDir example "broken" =
       ((t ++ [ConsoleError (Error ("Failed to read token: "
                                    ++ resolve example "broken" f0))])%list,
        Throw (Error ("Failed to read tokens from metadata directory: "
                      ++ "broken"))).
Proof.
  apply (@unparsable_metadata_aborts_scan example "broken" ["1.json"; "2.json"]
           "2.json" (list_byte_of_string "{") (Error "Unexpected token in JSON")).
  - reflexivity.
  - simpl; auto.
  - vm_compute. discriminate.
  - reflexivity.
  - reflexivity.
Defined.

Lemma missing_field_skipped_witness :
  exists t tokens,
    readMetadataDir example "metadata" = (t, Ok tokens)
    /\ In (ConsoleWarn "Token is missing name and/or image: metadata/2.json") t
    /\ In {| token_index := number_of_Z 1; token_file := "metadata/1.json";
             token_metadata := validValue |} tokens.
Proof.
  destruct (@missing_field_skipped example "metadata"
              ["1.json"; "2.json"; "3.json"; "notes.txt"] "2.json"
              (MatchResult 0 "2.json" [(1, "2")])
              (list_byte_of_string missingText) missingValue)
    as (t & tokens & Hrun & Hwarn & _ & _ & Hkeep).
  - reflexivity.
  - intros f [<-|[<-|[<-|[<-|[]]]]] Hname.
    + exists (list_byte_of_string validText), validValue. split; reflexivity.
    + exists (list_byte_of_string missingText), missingValue. split; reflexivity.
    + exists (list_byte_of_string emptyNameText), emptyNameValue. split; reflexivity.
    + exfalso. apply Hname. reflexivity.
  - simpl; auto.
  - reflexivity.
  - reflexivity.
  - reflexivity.
  - left. reflexivity.
  - exists t, tokens. split; [exact Hrun|]. split; [exact Hwarn|].
    apply (Hkeep "1.json" (MatchResult 0 "1.json" [(1, "1")])
                 (list_byte_of_string validText) validValue);
      [simpl; auto | reflexivity | reflexivity | reflexivity | reflexivity | reflexivity].
Defined.

Lemma required_fields_gate_on_truthiness_witness :
  readMetadataDir_file example "metadata" "3.json" [] =
  ([ConsoleWarn ("Token is missing name and/or image: "
                 ++ resolve example "metadata" "3.json")],
   Ok []).
Proof.
  destruct (@required_fields_gate_on_truthiness example "metadata" "3.json"
              (MatchResult 0 "3.json" [(1, "3")])
              (list_byte_of_string emptyNameText) emptyNameValue []
              eq_refl eq_refl eq_refl) as [Hfalsy _].
  apply (Hfalsy (VStr "")); [simpl; auto | left; reflexivity].
Defined.

Lemma media_classification_witness :
  parseMediaFile example "media/icon-3.png" =
    ([], Ok (Some {| media_file := "media/icon-3.png"; media_category := icon;
                     media_index := number_of_Z 3; media_extension := "png" |}))
  /\ readMediaDir example "media" =
     ([ConsoleWarn "Unsupported image file type 'xyz': media/5.xyz"],
      Ok [ {| media_file := "media/icon-3.png"; media_category := icon;
              media_index := number_of_Z 3; media_extension := "png" |};
           {| media_file := "media/5.jpg"; media_category := image;
              media_index := number_of_Z 5; media_extension := "jpg" |} ]).
Proof.
  destruct (@media_classification example "media" "icon-3.png" "5.jpg" "5.xyz"
              "README.md" eq_refl eq_refl eq_refl eq_refl eq_refl)
    as (H1 & _ & _ & _ & Hscan).
  split; [exact H1 | exact Hscan].
Defined.

(** ** The base-URI validator *)

Lemma path_format_iff prefix least class a b :
  path (formatPattern (prefix, least, class)) a b <->
  exists w, least <= String.length w /\ forall_chars class w = true
            /\ consumes (prefix ++ w) a b.
Proof.
  unfold formatPattern. split.
  - intros H. apply path_Seq_inv in H as (m & H1 & H2).
    apply path_Lit_iff in H1.
    apply path_AtLeast_Class_iff in H2 as (w & L & Hw & H2).
    exists w. split; [assumption|]. split; [assumption|].
    exact (consumes_append H1 H2).
  - intros (w & L & Hw & Hc). apply consumes_split in Hc as (m & H1 & H2).
    apply path_Seq with (b := m).
    + now apply path_Lit_iff.
    + apply path_AtLeast_Class_iff. eauto.
Qed.

Lemma path_formats_iff a b :
  path (Alt (formatPattern ("Qm", 44, base58))
       (Alt (formatPattern ("b", 58, base32))
       (Alt (formatPattern ("B", 58, base32upper))
       (Alt (formatPattern ("z", 48, base58))
            (formatPattern ("F", 50, base16upper)))))) a b <->
  exists addr, ipfsAddress addr /\ consumes addr a b.
Proof.
  split.
  - intros H.
    repeat (apply path_Alt_inv in H as [H|H]);
      apply path_format_iff in H as (w & L & Hw & Hc);
      (eexists; split; [|exact Hc]);
      (eexists _, _, _, w; split; [|split; [reflexivity|split; [exact L|exact Hw]]]);
      simpl; auto 10.
  - intros (addr & (prefix & least & class & w & Hin & -> & L & Hw) & Hc).
    assert (Hp : path (formatPattern (prefix, least, class)) a b)
      by (apply path_format_iff; eauto).
    simpl in Hin.
    destruct Hin as [E|[E|[E|[E|[E|[]]]]]]; injection E as <- <- <-.
    + apply path_AltL. exact Hp.
    + apply path_AltR, path_AltL. exact Hp.
    + apply path_AltR, path_AltR, path_AltL. exact Hp.
    + apply path_AltR, path_AltR, path_AltR, path_AltL. exact Hp.
    + apply path_AltR, path_AltR, path_AltR, path_AltR. exact Hp.
Qed.

Lemma path_uri_inv a b :
  path uriPattern a b ->
  exists addr, ipfsAddress addr /\ rest a = "ipfs://" ++ addr ++ rest b.
Proof.
  unfold uriPattern. intros H.
  apply path_Seq_inv in H as (m & H1 & H2).
  apply path_Lit_iff in H1 as (E1 & _).
  apply path_Group_inv in H2 as (c & H2 & ->).
  apply path_formats_iff in H2 as (addr & Haddr & (E2 & _)).
  exists addr. split; [assumption|]. simpl. now rewrite E1, E2.
Qed.

Lemma path_uri_intro a addr post :
  ipfsAddress addr -> rest a = "ipfs://" ++ addr ++ post ->
  exists b, path uriPattern a b.
Proof.
  intros Haddr E.
  set (m := MState (pos a + 7) (addr ++ post) (caps a)).
  set (c := MState (pos m + String.length addr) post (caps m)).
  exists (set_cap 1 m c). unfold uriPattern.
  apply path_Seq with (b := m).
  - apply path_Lit_iff. unfold consumes. simpl. auto.
  - apply path_Group, path_formats_iff. exists addr. split; [assumption|].
    unfold consumes. simpl. auto.
Qed.

Lemma exec_uri_iff s :
  exec uriPattern s <> None <-> containsUri s.
Proof.
  split.
  - destruct (exec uriPattern s) as [m|] eqn:E; [|congruence]. intros _.
    apply exec_sound in E as (i & st' & _ & Hp & _).
    apply path_uri_inv in Hp as (addr & Haddr & E). simpl in E.
    exists (take i s), ("ipfs://" ++ addr), (rest st'). split.
    + rewrite <- (take_drop i s) at 1. rewrite E. reflexivity.
    + exists addr. auto.
  - intros (pre & u & post & -> & addr & -> & Haddr).
    destruct (@path_uri_intro (MState (String.length pre)
                                 (drop (String.length pre)
                                    (pre ++ ("ipfs://" ++ addr) ++ post)) [])
                addr post Haddr) as (b & Hp).
    { cbn [rest]. rewrite drop_append. reflexivity. }
    destruct (@exec_complete uriPattern (pre ++ ("ipfs://" ++ addr) ++ post)
                (String.length pre) b) as (m & ->);
      [rewrite length_append; lia | exact Hp | discriminate].
Qed.

(** C2 (amended).  The validator accepts exactly the strings in which the
    scheme token followed by an address of one of the five formats occurs
    somewhere; any other input, a non-string included, gets the fixed
    message back (the question is asked again), and the callback never
    throws. *)
Theorem validateBaseUri_spec (input : value) :
  (validateBaseUri input = Accepted <->
   exists s, input = VStr s /\ containsUri s)
  /\ (validateBaseUri input <> Accepted ->
      validateBaseUri input = Reprompt invalidUriMessage).
Proof.
  unfold validateBaseUri, IpfsUrl. split.
  - split.
    + destruct input as [| | | |s| |]; try discriminate.
      destruct (exec uriPattern s) eqn:E; [|discriminate].
      intros _. exists s. split; [reflexivity|].
      apply exec_uri_iff. congruence.
    + intros (s & -> & Hs). apply exec_uri_iff in Hs.
      destruct (exec uriPattern s); [reflexivity | congruence].
  - destruct input as [| | | |s| |]; try reflexivity.
    destruct (exec uriPattern s); [congruence | reflexivity].
Qed.

(** C2, as stated, fails: a string with text around the address is
    accepted although it is not the scheme token followed by an address. *)
Lemma validateBaseUri_accepts_embedded :
  ~ (forall s, validateBaseUri (VStr s) = Accepted <-> conformingUri s).
Proof.
  intros H. destruct (H embeddedUri) as [Hacc _].
  destruct (Hacc ltac:(vm_compute; reflexivity)) as (addr & E & _).
  discriminate E.
Qed.

Example validateBaseUri_accepts_its_example :
  validateBaseUri
    (VStr "ipfs://bafybeiesesamfxkgronf4pf4maauei6svfas4vvzlhm7o4kzwnvbb3h5i4")
  = Accepted.
Proof. vm_compute. reflexivity. Qed.

(** ** The descriptor builder and the assembler *)

Lemma trace_bind_nil {A B} (m : M A) (f : A -> M B) :
  trace m = [] -> (forall a, trace (f a) = []) -> trace (bind m f) = [].
Proof.
  destruct m as [t [a|e]]; simpl; intros -> Hf; [|reflexivity].
  specialize (Hf a). destruct (f a). simpl in *. assumption.
Qed.

Lemma trace_mapM_nil {A B} (f : A -> M B) (l : list A) :
  (forall a, trace (f a) = []) -> trace (mapM f l) = [].
Proof.
  intros Hf. induction l as [|a l IH]; [reflexivity|]. simpl.
  apply trace_bind_nil; [apply Hf|]. intros b.
  apply trace_bind_nil; [exact IH|]. reflexivity.
Qed.

Lemma mapM_ok {A B} (f : A -> M B) (l : list A) : forall t bs,
  mapM f l = (t, Ok bs) ->
  Forall2 (fun a b => exists t', f a = (t', Ok b)) l bs.
Proof.
  induction l as [|a l IH]; intros t bs H; simpl in H.
  - injection H as _ <-. constructor.
  - unfold bind at 1 in H. destruct (f a) as [t1 [b|e]] eqn:Ea; [|discriminate].
    unfold bind at 1 in H. destruct (mapM f l) as [t2 [bs'|e]]; [|discriminate].
    cbn in H. injection H as _ <-. constructor; eauto.
Qed.

Section AssemblerFacts.
Variable P : Platform.

Lemma buildFileInfo_trace info baseUri : trace (buildFileInfo P info baseUri) = [].
Proof.
  unfold buildFileInfo. destruct (MediaCategory_eqb _ _); [|reflexivity].
  apply trace_bind_nil; [reflexivity|]. intros imageInfo.
  destruct (meta_width imageInfo), (meta_height imageInfo); try reflexivity.
  destruct (_ || _); [reflexivity|].
  apply trace_bind_nil; reflexivity.
Qed.

Lemma mapAttributes_trace metadata : trace (mapAttributes metadata) = [].
Proof.
  unfold mapAttributes. apply trace_bind_nil; [reflexivity|].
  intros [| | | | |items|]; try reflexivity.
  apply trace_bind_nil; [|reflexivity].
  apply trace_mapM_nil. intros a.
  apply trace_bind_nil; [reflexivity|]. intros k.
  apply trace_bind_nil; reflexivity.
Qed.

Lemma tokenMetadata_trace baseUri links mediaFiles token :
  trace (tokenMetadata P baseUri links mediaFiles token) = [].
Proof.
  unfold tokenMetadata.
  apply trace_bind_nil; [apply mapAttributes_trace|]. intros attributes.
  apply trace_bind_nil.
  { destruct mediaFiles as [files|]; [|reflexivity].
    destruct (find _ files); [apply buildFileInfo_trace | reflexivity]. }
  intros icon0. apply trace_bind_nil.
  { destruct mediaFiles as [files|]; [|reflexivity].
    apply trace_bind_nil; [|reflexivity].
    apply trace_mapM_nil. intros a. apply buildFileInfo_trace. }
  intros images. apply trace_bind_nil; [reflexivity|]. intros name.
  apply trace_bind_nil; reflexivity.
Qed.

(** The builder has one branch, for [image]: a record of another category
    resolves to [undefined]. *)
Lemma buildFileInfo_not_image info baseUri :
  media_category info <> image ->
  buildFileInfo P info baseUri = ([], Ok None).
Proof.
  intros H. unfold buildFileInfo.
  destruct (media_category info); try congruence; reflexivity.
Qed.

Lemma find_matches token category files info :
  find (matches token category) files = Some info ->
  media_category info = category.
Proof.
  intros H. apply find_some in H as (_ & H). unfold matches in H.
  apply andb_true_iff in H as (_ & H).
  destruct (media_category info), category; simpl in H; congruence.
Qed.

(** The icon's record, when one is found, resolves to [undefined]. *)
Lemma icon_step baseUri mediaFiles token :
  match match mediaFiles with
        | Some files => find (matches token icon) files
        | None => None
        end with
  | Some info => buildFileInfo P info baseUri
  | None => ret None
  end = ([], Ok None).
Proof.
  destruct mediaFiles as [files|]; [|reflexivity].
  destruct (find (matches token icon) files) as [info|] eqn:E; [|reflexivity].
  apply buildFileInfo_not_image. rewrite (find_matches _ _ _ E). discriminate.
Qed.

(** The object of a token whose assembly succeeds. *)
Lemma tokenMetadata_ok baseUri links mediaFiles token t metadata :
  tokenMetadata P baseUri links mediaFiles token = (t, Ok metadata) ->
  exists t1 t2 attributes images name description,
    mapAttributes (token_metadata token) = (t1, Ok attributes)
    /\ match mediaFiles with
       | Some files =>
           built <- mapM (fun info => buildFileInfo P info baseUri)
                         (filter (matches token image) files) ;;
           ret (Some [built])
       | None => ret None
       end = (t2, Ok images)
    /\ get (token_metadata token) "name" = Ok name
    /\ get (token_metadata token) "description" = Ok description
    /\ metadata = {| lsp4_name := name;
                     lsp4_description := description;
                     lsp4_attributes := attributes;
                     lsp4_icon := None;
                     lsp4_images := images;
                     lsp4_links := links |}.
Proof.
  unfold tokenMetadata. cbv zeta. intros H.
  destruct (mapAttributes (token_metadata token)) as [t1 [attributes|e]];
    [|discriminate].
  unfold bind at 1 in H. rewrite icon_step in H. unfold bind at 1 in H.
  match type of H with
  | context [bind ?m _] => destruct m as [t2 [images|e]]
  end; [|discriminate].
  destruct (get (token_metadata token) "name") as [name|e]; [|discriminate].
  destruct (get (token_metadata token) "description") as [d|e]; [|discriminate].
  cbn in H. injection H as _ <-.
  exists t1, t2, attributes, images, name, d. repeat split.
Qed.

(** C1, on the code.  Whatever the media records are, the object built for
    a token holds no icon: the record found for the icon is handed to
    [buildFileInfo], which answers [undefined] for it. *)
Theorem icon_never_resolved baseUri links mediaFiles token t metadata :
  tokenMetadata P baseUri links mediaFiles token = (t, Ok metadata) ->
  lsp4_icon metadata = None.
Proof.
  intros H.
  apply tokenMetadata_ok in H
    as (t1 & t2 & attributes & images & name & d & _ & _ & _ & _ & ->).
  reflexivity.
Qed.

(** C8.  For an image record whose file [sharp] can measure and [readFile]
    can read, the descriptor's URL is the base URI, a slash, the index
    printed as a number, a dot and the extension, and its hash is 0x and the
    hex digest of the file's bytes.  When the index came from digits worth
    at most 2^53 it is printed as their value, without leading zeros. *)
Theorem image_descriptor info baseUri w h content :
  media_category info = image ->
  sharp_metadata P (media_file info)
  = Ok {| meta_width := Some w; meta_height := Some h |} ->
  number_truthy w = true ->
  number_truthy h = true ->
  readFile P (media_file info) = Ok content ->
  exists d,
    buildFileInfo P info baseUri = ([], Ok (Some d))
    /\ width d = w /\ height d = h
    /\ hashFunction d = "keccak256(bytes)"
    /\ hash d = "0x" ++ hex (keccak256 P content)
    /\ url d = baseUri ++ "/" ++ Number_toString (media_index info)
                      ++ "." ++ media_extension info
    /\ (forall ds,
          media_index info = js_Number ds ->
          forall_chars digit ds = true ->
          (decimal_value ds <= 2 ^ 53)%N ->
          url d = baseUri ++ "/" ++ decimal_string (decimal_value ds)
                          ++ "." ++ media_extension info).
Proof.
  intros Hcat Hsharp Hw Hh Hread.
  eexists. split.
  - unfold buildFileInfo. rewrite Hcat, Hsharp. cbn. rewrite Hw, Hh. cbn.
    rewrite Hread. cbn. reflexivity.
  - cbn. repeat (split; [reflexivity|]).
    intros ds -> Hds Hle. unfold js_Number. rewrite Hds.
    rewrite Number_toString_number_of_Z, N2Z.id; [reflexivity|].
    change (2 ^ 53)%Z with (Z.of_N (2 ^ 53)). lia.
Qed.

(** What the loop body of [buildMetadata] does for one token. *)
Lemma buildMetadata_token_cases outputDir baseUri links mediaFiles token :
  let file := resolve P outputDir (Number_toString (token_index token) ++ ".json") in
  (exists e, buildMetadata_token P outputDir baseUri links mediaFiles token tt
             = ([], Throw e))
  \/ (exists data, buildMetadata_token P outputDir baseUri links mediaFiles token tt
                   = ([WriteFile file data; ProgressIncrement], Ok tt)).
Proof.
  intros file. unfold buildMetadata_token. fold file.
  assert (Ht := tokenMetadata_trace baseUri links mediaFiles token).
  destruct (tokenMetadata P baseUri links mediaFiles token) as [t [metadata|e]];
    simpl in Ht; subst t.
  - cbn. destruct (writeFile P file _) as [[]|e]; cbn.
    + right. eexists. reflexivity.
    + left. eexists. reflexivity.
  - left. eexists. reflexivity.
Qed.

(** The loop writes a file and reports one unit for each token up to the
    first that fails, and nothing after it. *)
Lemma forEach_tokens outputDir baseUri links mediaFiles tokens :
  let run := forEach (buildMetadata_token P outputDir baseUri links mediaFiles)
                     tokens tt in
  ~ In ProgressStop (trace run)
  /\ countEvents isIncrement (trace run) = countEvents isWrite (trace run)
  /\ ((outcome run = Ok tt
       /\ countEvents isIncrement (trace run) = List.length tokens)
      \/ (exists e, outcome run = Throw e
                    /\ countEvents isIncrement (trace run) < List.length tokens)).
Proof.
  induction tokens as [|token tokens IH]; cbv zeta.
  - cbn. split; [tauto|]. split; [reflexivity|]. left. split; reflexivity.
  - cbn [forEach].
    destruct (buildMetadata_token_cases outputDir baseUri links mediaFiles token)
      as [(e & ->) | (data & ->)].
    + cbn. split; [tauto|]. split; [reflexivity|]. right. exists e.
      split; [reflexivity | lia].
    + cbv zeta in IH. unfold bind.
      destruct (forEach _ tokens tt) as [t r]. cbn [trace outcome fst snd] in *.
      destruct IH as (Hstop & Hcount & Hout).
      split; [|split].
      * intros [H|[H|H]]; [discriminate | discriminate | contradiction].
      * cbn. unfold countEvents in Hcount. now rewrite Hcount.
      * cbn [List.length]. unfold countEvents in *. cbn.
        destruct Hout as [(-> & Hn) | (e & -> & Hn)].
        -- left. split; [reflexivity | lia].
        -- right. exists e. split; [reflexivity | lia].
Qed.

(** C9 (amended).  Once the output directory exists, the progress bar is
    started with the number of tokens, is stopped as the last thing of the
    run on every path, by normal completion or by an error of the loop, and
    counts the tokens whose file was written: all of them when the run
    succeeds, fewer than all when a token fails (the failing token is not
    counted). *)
Theorem progress_stopped_on_every_path outputDir baseUri links tokens mediaFiles :
  mkdir P outputDir = Ok tt ->
  let run := buildMetadata P outputDir baseUri links (Some tokens) mediaFiles in
  exists t,
    trace run = (Mkdir outputDir :: ProgressStart (List.length tokens) 0 :: t
                 ++ [ProgressStop])%list
    /\ ~ In ProgressStop t
    /\ countEvents isIncrement t = countEvents isWrite t
    /\ ((outcome run = Ok tt /\ countEvents isIncrement t = List.length tokens)
        \/ (exists e, outcome run = Throw e
                      /\ countEvents isIncrement t < List.length tokens)).
Proof.
  intros Hmkdir run.
  assert (H := forEach_tokens outputDir baseUri links mediaFiles tokens).
  cbv zeta in H. unfold run, buildMetadata. rewrite Hmkdir.
  destruct (forEach _ tokens tt) as [t r]. cbn [trace outcome fst snd] in *.
  exists t. cbn. tauto.
Qed.

Lemma buildFileInfo_image_some info baseUri t d :
  media_category info = image ->
  buildFileInfo P info baseUri = (t, Ok d) -> d <> None.
Proof.
  unfold buildFileInfo. intros -> H. cbn in H.
  destruct (sharp_metadata P (media_file info)) as [imageInfo|e]; [|discriminate].
  cbn in H.
  destruct (meta_width imageInfo) as [w|], (meta_height imageInfo) as [h|];
    try discriminate.
  destruct (negb (number_truthy w) || negb (number_truthy h)); [discriminate|].
  destruct (readFile P (media_file info)) as [content|e]; [|discriminate].
  cbn in H. injection H as _ <-. discriminate.
Qed.

Lemma filter_matches_category token category files :
  Forall (fun info => media_category info = category)
         (filter (matches token category) files).
Proof.
  apply Forall_forall. intros info Hin. apply filter_In in Hin as (_ & H).
  unfold matches in H. apply andb_true_iff in H as (_ & H).
  destruct (media_category info), category; simpl in H; congruence.
Qed.

(** X2.  The [images] field is absent when no media list is given; otherwise it
    is an array holding one array, with one descriptor for each image
    record of the token's index, in scan order. *)
Theorem images_double_nested baseUri links mediaFiles token t metadata :
  tokenMetadata P baseUri links mediaFiles token = (t, Ok metadata) ->
  match mediaFiles with
  | None => lsp4_images metadata = None
  | Some files =>
      exists built,
        lsp4_images metadata = Some [built]
        /\ Forall2 (fun info d =>
                      exists t' desc, d = Some desc
                        /\ buildFileInfo P info baseUri = (t', Ok (Some desc)))
                   (filter (matches token image) files) built
  end.
Proof.
  intros H.
  apply tokenMetadata_ok in H
    as (t1 & t2 & attributes & images & name & d & _ & Himg & _ & _ & ->).
  destruct mediaFiles as [files|]; cbn [lsp4_images].
  - unfold bind in Himg.
    destruct (mapM _ _) as [t3 [built|e]] eqn:Em; [|discriminate].
    cbn in Himg. injection Himg as _ <-. exists built. split; [reflexivity|].
    apply mapM_ok in Em.
    assert (Hcat := filter_matches_category token image files).
    induction Em as [|info b l bs (t' & Hb) Hrest IH]; constructor.
    + inversion Hcat; subst.
      destruct b as [desc|];
        [eauto | exfalso; eapply buildFileInfo_image_some; eauto].
    + apply IH. now inversion Hcat.
  - cbn in Himg. now injection Himg as _ <-.
Qed.


End AssemblerFacts.

Lemma icon_never_resolved_witness :
  match outcome (tokenMetadata example "ipfs://base" None (Some artMedia) artToken) with
  | Ok metadata => lsp4_icon metadata = None
  | Throw _ => False
  end.
Proof.
  destruct (tokenMetadata example "ipfs://base" None (Some artMedia) artToken)
    as [t [metadata|e]] eqn:E.
  - exact (@icon_never_resolved example "ipfs://base" None (Some artMedia)
             artToken t metadata E).
  - vm_compute in E. discriminate.
Defined.

Lemma images_double_nested_witness :
  match outcome (tokenMetadata example "ipfs://base" None (Some artMedia)
                               artToken) with
  | Ok metadata =>
      exists built, lsp4_images metadata = Some [built] /\ List.length built = 2
  | Throw _ => False
  end.
Proof.
  destruct (tokenMetadata example "ipfs://base" None (Some artMedia) artToken)
    as [t [metadata|e]] eqn:E.
  - destruct (@images_double_nested example "ipfs://base" None (Some artMedia)
                artToken t metadata E) as (built & Himg & Hall).
    exists built. split; [exact Himg|].
    apply Forall2_length in Hall. rewrite <- Hall. reflexivity.
  - vm_compute in E. discriminate.
Defined.


(** The records of [artMedia] are what the media scan makes of the
    directory, and [artToken] is the first token of the metadata scan. *)
Example artMedia_scanned : readMediaDir example "art" = ([], Ok artMedia).
Proof. vm_compute. reflexivity. Qed.

Example artToken_scanned :
  exists t rest, readMetadataDir example "metadata" = (t, Ok (artToken :: rest)).
Proof. do 2 eexists. vm_compute. reflexivity. Qed.

Lemma image_descriptor_witness :
  exists d,
    buildFileInfo example
      {| media_file := "art/image-007.png"; media_category := image;
         media_index := js_Number "007"; media_extension := "png" |}
      "ipfs://base" = ([], Ok (Some d))
    /\ url d = "ipfs://base/7.png".
Proof.
  destruct (@image_descriptor example
              {| media_file := "art/image-007.png"; media_category := image;
                 media_index := js_Number "007"; media_extension := "png" |}
              "ipfs://base" (number_of_Z 16) (number_of_Z 16)
              (list_byte_of_string "image seven")
              eq_refl eq_refl eq_refl eq_refl eq_refl)
    as (d & Hrun & _ & _ & _ & _ & _ & Hurl).
  exists d. split; [exact Hrun|].
  apply (Hurl "007"); [reflexivity | reflexivity | vm_compute; discriminate].
Defined.

Lemma progress_stopped_on_every_path_witness :
  exists t,
    trace (buildMetadata example "build/1" "ipfs://base" None
             (Some [artToken]) (Some artMedia))
    = (Mkdir "build/1" :: ProgressStart 1 0 :: t ++ [ProgressStop])%list
    /\ countEvents isIncrement t = countEvents isWrite t.
Proof.
  destruct (@progress_stopped_on_every_path example "build/1" "ipfs://base" None
              [artToken] (Some artMedia) eq_refl)
    as (t & Htrace & _ & Hcount & _).
  exists t. split; [exact Htrace | exact Hcount].
Defined.

(** C9, as stated, fails: a token is processed, its image cannot be
    measured, and no unit of progress is reported for it. *)
Lemma progress_not_counted_on_failure :
  ~ (forall (P : Platform) outputDir baseUri links token mediaFiles,
       mkdir P outputDir = Ok tt ->
       In ProgressIncrement
          (trace (buildMetadata P outputDir baseUri links (Some [token])
                                mediaFiles))).
Proof.
  intros H.
  specialize (H example "build/1" "ipfs://base" None artToken (Some lostMedia)
                eq_refl).
  vm_compute in H. intuition discriminate.
Qed.

(** C3, on the code.  The token of index 1 with an icon and two images of
    index 1 and an image of index 2: the object holds the two descriptors
    of index 1 in one inner array, nothing of index 2, and no icon. *)
Lemma join_example :
  exists d1 d2 name description attributes,
    tokenMetadata example "ipfs://base" None (Some artMedia) artToken
    = ([], Ok {| lsp4_name := name; lsp4_description := description;
                 lsp4_attributes := attributes;
                 lsp4_icon := None;
                 lsp4_images := Some [[Some d1; Some d2]];
                 lsp4_links := None |})
    /\ url d1 = "ipfs://base/1.png" /\ url d2 = "ipfs://base/1.jpg".
Proof.
  do 5 eexists. split; [vm_compute; reflexivity|]. split; reflexivity.
Qed.

(* ================================================================= *)
(** ** The scanners: failure and success as a whole *)

Section ScanWhole.
Variable P : Platform.

Lemma parseMediaFile_returns file :
  exists t o, parseMediaFile P file = (t, Ok o).
Proof.
  unfold parseMediaFile.
  destruct (exec mediaNamePattern (path_basename P file)) as [info|];
    [|do 2 eexists; reflexivity].
  destruct (group 1 info) as [c|].
  - destruct (MediaCategory_of_string c); do 2 eexists; reflexivity.
  - destruct (isImageTypeSupported _); do 2 eexists; reflexivity.
Qed.

Lemma forEach_media dir files : forall result,
  forEach (readMediaDir_file P dir) files result =
  (mediaWarnings P dir files, Ok (result ++ mediaRecords P dir files)%list).
Proof.
  induction files as [|f files IH]; intros result; simpl.
  - unfold ret. now rewrite app_nil_r.
  - unfold mediaWarnings, mediaRecords. simpl. unfold readMediaDir_file at 1.
    destruct (parseMediaFile_returns (resolve P dir f)) as (t & o & E).
    rewrite E. cbn [bind trace outcome fst snd].
    destruct o as [info|]; cbn; rewrite IH; cbn.
    + rewrite app_nil_r, <- app_assoc. reflexivity.
    + rewrite app_nil_r. reflexivity.
Qed.

(** X4.  The media scan fails only when the directory cannot be listed, and
    then with the directory's error after logging the cause; otherwise it
    returns, in listing order, the record of every entry that
    [parseMediaFile] classifies, and prints the warnings of the entries it
    refuses. *)
Theorem readMediaDir_spec dir :
  match readdir P dir with
  | Ok files =>
      readMediaDir P dir = (mediaWarnings P dir files, Ok (mediaRecords P dir files))
  | Throw e =>
      readMediaDir P dir =
      ([ConsoleError e],
       Throw (Error ("Failed to read media from directory: " ++ dir)))
  end.
Proof.
  destruct (readdir P dir) as [files|e] eqn:E.
  - rewrite (@readMediaDir_listing P dir files E), forEach_media. reflexivity.
  - unfold readMediaDir. rewrite E. reflexivity.
Qed.

(** A scan of the metadata directory that returns met no unreadable
    entry. *)
Lemma forEach_returns_readable dir files result t tokens :
  forEach (readMetadataDir_file P dir) files result = (t, Ok tokens) ->
  forall f, In f files -> classify P dir f <> Unreadable.
Proof.
  intros H f Hin Hc.
  destruct (@forEach_unreadable P dir files result f Hin Hc)
    as (before & f0 & after & _ & _ & _ & E).
  rewrite E in H. discriminate.
Qed.

Lemma forEach_throws_unreadable dir files result t e :
  forEach (readMetadataDir_file P dir) files result = (t, Throw e) ->
  exists f, In f files /\ classify P dir f = Unreadable.
Proof.
  intros H.
  assert (D : (exists f, In f files /\ classify P dir f = Unreadable)
              \/ (forall f, In f files -> classify P dir f <> Unreadable)).
  { clear H. induction files as [|g files [(f & Hin & Hc)|IH]].
    - right. intros f [].
    - left. exists f. split; [now right | exact Hc].
    - destruct (classify P dir g) eqn:Eg;
        try (right; intros f [<-|Hin]; [congruence | now apply IH]).
      left. exists g. split; [now left | exact Eg]. }
  destruct D as [D|D]; [exact D|].
  rewrite (@forEach_readable P dir files result D) in H. discriminate.
Qed.

Lemma classify_Valid_inv dir f token :
  classify P dir f = Valid token ->
  exists ds data,
    tokenMetadataName (path_basename P (resolve P dir f)) ds
    /\ token_file token = resolve P dir f
    /\ token_index token = js_Number ds
    /\ readFile P (resolve P dir f) = Ok data
    /\ JSON_parse P (utf8_decode P data) = Ok (token_metadata token)
    /\ truthy (get_opt (token_metadata token) "name") = true
    /\ truthy (get_opt (token_metadata token) "image") = true.
Proof.
  unfold classify. intros H.
  destruct (exec tokenMetadataNamePattern _) as [info|] eqn:Ex; [|discriminate].
  destruct (readFile P _) as [data|] eqn:Er; [|discriminate].
  destruct (JSON_parse P _) as [metadata|] eqn:Ep; [|discriminate].
  destruct (truthy (get_opt metadata "name")) eqn:Tn; [|discriminate].
  destruct (truthy (get_opt metadata "image")) eqn:Ti; [|discriminate].
  injection H as <-. cbn.
  apply exec_token_sound in Ex as (ds & Hn & ->).
  exists ds, data. repeat split; try assumption; apply Hn.
Qed.

(** A metadata scan that returns has listed the directory and met no
    unreadable entry. *)
Lemma readMetadataDir_returns dir t tokens :
  readMetadataDir P dir = (t, Ok tokens) ->
  exists files,
    readdir P dir = Ok files
    /\ (forall f, In f files -> classify P dir f <> Unreadable)
    /\ t = warningsOf P dir files
    /\ tokens = tokensOf P dir files.
Proof.
  intros H. destruct (readdir P dir) as [files|e] eqn:Ed.
  2:{ unfold readMetadataDir in H. rewrite Ed in H. discriminate. }
  rewrite (@readMetadataDir_listing P dir files Ed) in H.
  destruct (forEach (readMetadataDir_file P dir) files []) as [t0 [tokens0|e]] eqn:Ef;
    [|discriminate].
  cbn in H. injection H as <- <-.
  assert (Hok := forEach_returns_readable _ _ _ Ef).
  rewrite (@forEach_readable P dir files [] Hok) in Ef.
  injection Ef as <- <-. exists files. auto.
Qed.

(** X5.  Every token of a metadata scan that returns comes from a listed
    file whose base name is digits followed by .json; its index is
    [Number] of those digits, its metadata is the parse of that file's
    content and holds a truthy [name] and a truthy [image]; the tokens
    stand in listing order, and nothing but warnings was printed. *)
Theorem readMetadataDir_tokens dir t tokens :
  readMetadataDir P dir = (t, Ok tokens) ->
  exists files,
    readdir P dir = Ok files
    /\ tokens = tokensOf P dir files
    /\ (forall ev, In ev t -> exists text, ev = ConsoleWarn text)
    /\ Forall (fun token =>
                 exists f ds data,
                   In f files
                   /\ tokenMetadataName (path_basename P (resolve P dir f)) ds
                   /\ token_file token = resolve P dir f
                   /\ token_index token = js_Number ds
                   /\ readFile P (resolve P dir f) = Ok data
                   /\ JSON_parse P (utf8_decode P data) = Ok (token_metadata token)
                   /\ truthy (get_opt (token_metadata token) "name") = true
                   /\ truthy (get_opt (token_metadata token) "image") = true)
              tokens.
Proof.
  intros H. destruct (readMetadataDir_returns _ H) as (files & Ed & Hok & -> & ->).
  exists files. split; [exact Ed|]. split; [reflexivity|]. split.
  - intros ev Hev. apply in_flat_map in Hev as (f & _ & Hev).
    destruct (classify P dir f); simpl in Hev; try contradiction.
    destruct Hev as [<-|[]]. eexists. reflexivity.
  - apply Forall_forall. intros token Htok.
    apply in_flat_map in Htok as (f & Hf & Htok).
    destruct (classify P dir f) as [| | |token'] eqn:Ec; simpl in Htok;
      try contradiction.
    destruct Htok as [<-|[]].
    destruct (classify_Valid_inv _ _ Ec) as (ds & data & H'). exists f, ds, data.
    split; [assumption | exact H'].
Qed.

(** X6.  The metadata scan throws exactly when the directory cannot be
    listed or a listed file named as metadata cannot be read or parsed, and
    what it throws is always the directory's error: the error naming the
    file never leaves the function. *)
Theorem readMetadataDir_failure dir :
  ((exists e, outcome (readMetadataDir P dir) = Throw e) <->
   (exists e, readdir P dir = Throw e)
   \/ (exists files f,
         readdir P dir = Ok files /\ In f files
         /\ exec tokenMetadataNamePattern (path_basename P (resolve P dir f)) <> None
         /\ ((exists e, readFile P (resolve P dir f) = Throw e)
             \/ (exists data e, readFile P (resolve P dir f) = Ok data
                                /\ JSON_parse P (utf8_decode P data) = Throw e))))
  /\ (forall e, outcome (readMetadataDir P dir) = Throw e ->
        e = Error ("Failed to read tokens from metadata directory: " ++ dir)).
Proof.
  assert (Hun : forall f,
             classify P dir f = Unreadable <->
             exec tokenMetadataNamePattern (path_basename P (resolve P dir f)) <> None
             /\ ((exists e, readFile P (resolve P dir f) = Throw e)
                 \/ (exists data e, readFile P (resolve P dir f) = Ok data
                                    /\ JSON_parse P (utf8_decode P data) = Throw e))).
  { intros f. unfold classify.
    destruct (exec tokenMetadataNamePattern _) as [info|].
    - destruct (readFile P _) as [data|e] eqn:Er.
      + destruct (JSON_parse P _) as [metadata|e] eqn:Ep.
        * split.
          -- destruct (_ && _); discriminate.
          -- intros (_ & [(e & He)|(d & e & Hd & He)]); [discriminate|].
             injection Hd as <-. congruence.
        * split; [|reflexivity]. intros _. split; [discriminate|]. right. eauto.
      + split; [|reflexivity]. intros _. split; [discriminate|]. left. eauto.
    - split; [discriminate|]. intros (H & _). congruence. }
  destruct (readdir P dir) as [files|e0] eqn:Ed.
  - rewrite (@readMetadataDir_listing P dir files Ed).
    destruct (forEach (readMetadataDir_file P dir) files []) as [t0 [tokens0|e]] eqn:Ef.
    + cbn. split.
      * split.
        -- intros (e & He). discriminate.
        -- intros [(e & He)|(files' & f & Hf & Hin & Hbad)]; [discriminate|].
           injection Hf as <-. exfalso.
           apply (forEach_returns_readable _ _ _ Ef f Hin). now apply Hun.
      * intros e He. discriminate.
    + cbn. split.
      * split; [|eauto]. intros _. right.
        destruct (forEach_throws_unreadable _ _ _ Ef) as (f & Hin & Hc).
        apply Hun in Hc as (Hname & Hbad).
        exists files, f. auto.
      * intros e' He. now injection He as <-.
  - unfold readMetadataDir. rewrite Ed. cbn. split.
    + split; [eauto|]. intros _. eauto.
    + intros e He. now injection He as <-.
Qed.

End ScanWhole.

Lemma readMetadataDir_tokens_witness :
  exists files,
    readdir example "metadata" = Ok files
    /\ [artToken] = tokensOf example "metadata" files.
Proof.
  destruct (@readMetadataDir_tokens example "metadata"
              [missingWarning example "metadata" "2.json";
               missingWarning example "metadata" "3.json"] [artToken])
    as (files & H1 & H2 & _).
  - vm_compute. reflexivity.
  - exists files. split; assumption.
Defined.

(* ================================================================= *)
Section BuilderFacts.
Variable P : Platform.

(** X7.  How the descriptor builder fails.  It throws only for an image
    record, and then exactly one of: the error of [sharp], as it is; the
    error "Failed to read image" when a dimension is missing, zero or NaN,
    whether or not the file can be read; the error of [readFile], as it
    is, once both dimensions are there. *)
Theorem buildFileInfo_failure info baseUri e :
  outcome (buildFileInfo P info baseUri) = Throw e <->
  media_category info = image
  /\ (sharp_metadata P (media_file info) = Throw e
      \/ exists imageInfo,
           sharp_metadata P (media_file info) = Ok imageInfo
           /\ match meta_width imageInfo, meta_height imageInfo with
              | Some w, Some h =>
                  if number_truthy w && number_truthy h
                  then readFile P (media_file info) = Throw e
                  else e = Error ("Failed to read image: " ++ media_file info)
              | _, _ => e = Error ("Failed to read image: " ++ media_file info)
              end).
Proof.
  unfold buildFileInfo.
  destruct (media_category info) eqn:Ec; cbn [MediaCategory_eqb].
  all: try (split; [discriminate | intros (H & _); discriminate]).
  destruct (sharp_metadata P (media_file info)) as [imageInfo|e0] eqn:Es.
  - destruct imageInfo as [[w|] [h|]]; cbn [lift bind meta_width meta_height].
    2-4: cbn; split;
      [ intros H; injection H as <-; split; [reflexivity|]; right;
        eexists; split; [reflexivity|]; reflexivity
      | intros (_ & [H|(i & Hi & H)]); [discriminate|]; injection Hi as <-;
        cbn in H; now subst e ].
    destruct (number_truthy w) eqn:Ew, (number_truthy h) eqn:Eh;
      cbn [negb orb andb].
    2-4: cbn; split;
      [ intros H; injection H as <-; split; [reflexivity|]; right;
        eexists; split; [reflexivity|]; cbn; rewrite Ew, Eh; reflexivity
      | intros (_ & [H|(i & Hi & H)]); [discriminate|]; injection Hi as <-;
        cbn in H; rewrite Ew, Eh in H; cbn in H; now subst e ].
    destruct (readFile P (media_file info)) as [content|e1] eqn:Er; cbn.
    + split; [discriminate|].
      intros (_ & [H|(i & Hi & H)]); [discriminate|]. injection Hi as <-.
      cbn in H. rewrite Ew, Eh in H. cbn in H. congruence.
    + split.
      * intros H. injection H as <-. split; [reflexivity|]. right.
        eexists. split; [reflexivity|]. cbn. rewrite Ew, Eh. reflexivity.
      * intros (_ & [H|(i & Hi & H)]); [discriminate|]. injection Hi as <-.
        cbn in H. rewrite Ew, Eh in H. cbn in H. congruence.
  - cbn. split.
    + intros H. injection H as <-. split; [reflexivity|]. now left.
    + intros (_ & [H|(i & Hi & H)]); [congruence | discriminate].
Qed.

Lemma get_not_nullish v key : nullish v = false -> get v key = Ok (get_opt v key).
Proof. destruct v; simpl; congruence. Qed.

Lemma bind_lift_Ok {A B} (a : A) (f : A -> M B) : bind (lift (Ok a)) f = f a.
Proof. unfold lift, bind. now destruct (f a). Qed.

Lemma mapM_attributes items :
  forallb (fun a => negb (nullish a)) items = true ->
  mapM (fun attribute =>
          key <- lift (get attribute "trait_type") ;;
          v <- lift (get attribute "value") ;;
          ret (VObj [("key", key); ("value", v)])) items
  = ([], Ok (map attributeEntry items)).
Proof.
  induction items as [|a items IH]; intros H; [reflexivity|].
  simpl in H. apply andb_true_iff in H as (Ha & H).
  apply negb_true_iff in Ha.
  cbn [mapM]. rewrite (IH H), (@get_not_nullish a "trait_type" Ha),
    (@get_not_nullish a "value" Ha). reflexivity.
Qed.

Lemma mapM_attributes_null items :
  forallb (fun a => negb (nullish a)) items = false ->
  exists message,
    mapM (fun attribute =>
            key <- lift (get attribute "trait_type") ;;
            v <- lift (get attribute "value") ;;
            ret (VObj [("key", key); ("value", v)])) items
    = ([], Throw (TypeError message)).
Proof.
  induction items as [|a items IH]; intros H; [discriminate|].
  simpl in H. cbn [mapM]. destruct (nullish a) eqn:Ha.
  - destruct a; try discriminate; eexists; reflexivity.
  - rewrite (@get_not_nullish a "trait_type" Ha), (@get_not_nullish a "value" Ha).
    cbn in H. destruct (IH H) as (m & ->).
    exists m. reflexivity.
Qed.

(** X8.  The attributes of an output object, from the parsed metadata
    object: a missing or null [attributes] gives [undefined], not an empty
    array; an array gives the array of the same length and order with each
    item's [trait_type] renamed to [key] and its [value] kept, an item
    without them getting [undefined] there; an array holding [null] and
    anything that is not an array end in a TypeError. *)
Theorem mapAttributes_spec fields :
  match lookup "attributes" fields with
  | VUndefined | VNull =>
      mapAttributes (VObj fields) = ([], Ok VUndefined)
  | VArr items =>
      if forallb (fun a => negb (nullish a)) items
      then mapAttributes (VObj fields) = ([], Ok (VArr (map attributeEntry items)))
      else exists message,
             mapAttributes (VObj fields) = ([], Throw (TypeError message))
  | _ =>
      exists message,
        mapAttributes (VObj fields) = ([], Throw (TypeError message))
  end.
Proof.
  unfold mapAttributes.
  change (get (VObj fields) "attributes") with (Ok (lookup "attributes" fields)).
  rewrite bind_lift_Ok.
  destruct (lookup "attributes" fields) as [| | | | |items|];
    try reflexivity; try (eexists; reflexivity).
  destruct (forallb _ items) eqn:E.
  - rewrite (mapM_attributes _ E). reflexivity.
  - destruct (mapM_attributes_null _ E) as (m & ->). exists m. reflexivity.
Qed.

Lemma buildMetadata_token_ok outputDir baseUri links mediaFiles token :
  outcome (buildMetadata_token P outputDir baseUri links mediaFiles token tt) = Ok tt ->
  buildMetadata_token P outputDir baseUri links mediaFiles token tt
  = (outputEvents P outputDir baseUri links mediaFiles token, Ok tt).
Proof.
  unfold buildMetadata_token, outputEvents, outputData, outputFile.
  assert (Ht := @tokenMetadata_trace P baseUri links mediaFiles token).
  destruct (tokenMetadata P baseUri links mediaFiles token) as [t [metadata|e]];
    simpl in Ht; subst t; [|discriminate].
  cbn. destruct (writeFile P _ _) as [[]|e]; cbn; [reflexivity | discriminate].
Qed.

Lemma buildMetadata_token_throw outputDir baseUri links mediaFiles token e :
  outcome (buildMetadata_token P outputDir baseUri links mediaFiles token tt) = Throw e ->
  buildMetadata_token P outputDir baseUri links mediaFiles token tt = ([], Throw e).
Proof.
  destruct (@buildMetadata_token_cases P outputDir baseUri links mediaFiles token)
    as [(e' & ->) | (data & ->)]; cbn; [|discriminate].
  now intros H; injection H as <-.
Qed.

Lemma forEach_tokens_ok outputDir baseUri links mediaFiles tokens :
  Forall (fun token =>
            outcome (buildMetadata_token P outputDir baseUri links mediaFiles token tt)
            = Ok tt) tokens ->
  forEach (buildMetadata_token P outputDir baseUri links mediaFiles) tokens tt
  = (flat_map (outputEvents P outputDir baseUri links mediaFiles) tokens, Ok tt).
Proof.
  induction 1 as [|token tokens Htok _ IH]; [reflexivity|].
  cbn [forEach flat_map]. rewrite (buildMetadata_token_ok _ _ _ _ _ Htok).
  cbn [bind]. rewrite IH. reflexivity.
Qed.

Lemma forEach_tokens_fail outputDir baseUri links mediaFiles before failing after e :
  Forall (fun token =>
            outcome (buildMetadata_token P outputDir baseUri links mediaFiles token tt)
            = Ok tt) before ->
  outcome (buildMetadata_token P outputDir baseUri links mediaFiles failing tt)
  = Throw e ->
  forEach (buildMetadata_token P outputDir baseUri links mediaFiles)
          (before ++ failing :: after) tt
  = (flat_map (outputEvents P outputDir baseUri links mediaFiles) before, Throw e).
Proof.
  intros Hb Hf. induction Hb as [|token tokens Htok _ IH].
  - cbn [app forEach flat_map]. rewrite (buildMetadata_token_throw _ _ _ _ _ Hf).
    reflexivity.
  - cbn [app forEach flat_map]. rewrite (buildMetadata_token_ok _ _ _ _ _ Htok).
    cbn [bind]. rewrite IH. reflexivity.
Qed.

(** X9.  A run in which every token is assembled and written does this and
    nothing else, in this order: it creates the output directory, starts
    the bar at 0 of the number of tokens, then for each token in scan order
    writes [<index>.json] under the output directory with the serialised
    object and advances the bar, and stops the bar. *)
Theorem buildMetadata_success outputDir baseUri links tokens mediaFiles :
  mkdir P outputDir = Ok tt ->
  Forall (fun token =>
            exists metadata,
              outcome (tokenMetadata P baseUri links mediaFiles token) = Ok metadata
              /\ writeFile P (outputFile P outputDir token)
                           (JSON_stringify P (value_of_metadata metadata)) = Ok tt)
         tokens ->
  buildMetadata P outputDir baseUri links (Some tokens) mediaFiles
  = ((Mkdir outputDir :: ProgressStart (List.length tokens) 0
      :: flat_map (outputEvents P outputDir baseUri links mediaFiles) tokens)
     ++ [ProgressStop], Ok tt)%list.
Proof.
  intros Hmkdir Hall. unfold buildMetadata. rewrite Hmkdir.
  rewrite forEach_tokens_ok; [reflexivity|].
  apply Forall_forall. intros token Hin.
  rewrite Forall_forall in Hall. destruct (Hall token Hin) as (metadata & Hm & Hw).
  unfold buildMetadata_token. fold (outputFile P outputDir token).
  assert (Ht := @tokenMetadata_trace P baseUri links mediaFiles token).
  destruct (tokenMetadata P baseUri links mediaFiles token) as [t r].
  cbn in Hm, Ht. subst t r. cbn. rewrite Hw. reflexivity.
Qed.

(** X10.  The loop stops at the first token that fails: the files of the
    tokens before it are written and counted, the failing token and the
    tokens after it leave no event, the bar is stopped, and the error
    leaves [buildMetadata] as it was thrown. *)
Theorem buildMetadata_fail_fast outputDir baseUri links mediaFiles before failing after e :
  mkdir P outputDir = Ok tt ->
  Forall (fun token =>
            outcome (buildMetadata_token P outputDir baseUri links mediaFiles token tt)
            = Ok tt) before ->
  outcome (buildMetadata_token P outputDir baseUri links mediaFiles failing tt)
  = Throw e ->
  buildMetadata P outputDir baseUri links (Some (before ++ failing :: after)%list) mediaFiles
  = ((Mkdir outputDir
      :: ProgressStart (List.length (before ++ failing :: after)%list) 0
      :: flat_map (outputEvents P outputDir baseUri links mediaFiles) before)
     ++ [ProgressStop], Throw e)%list.
Proof.
  intros Hmkdir Hb Hf. unfold buildMetadata. rewrite Hmkdir.
  rewrite (@forEach_tokens_fail _ _ _ _ _ _ after _ Hb Hf). reflexivity.
Qed.

End BuilderFacts.

Lemma buildMetadata_success_witness :
  buildMetadata example "build/1" "ipfs://base" None (Some [artToken]) (Some artMedia)
  = ((Mkdir "build/1" :: ProgressStart 1 0
      :: flat_map (outputEvents example "build/1" "ipfs://base" None (Some artMedia))
                  [artToken])
     ++ [ProgressStop], Ok tt)%list.
Proof.
  apply (@buildMetadata_success example "build/1" "ipfs://base" None [artToken]
           (Some artMedia) eq_refl).
  constructor; [|constructor].
  eexists. split; [vm_compute; reflexivity | reflexivity].
Defined.

Lemma buildMetadata_fail_fast_witness :
  buildMetadata example "build/1" "ipfs://base" None
    (Some [artToken; lostToken; artToken]) (Some artAndLostMedia)
  = ((Mkdir "build/1" :: ProgressStart 3 0
      :: outputEvents example "build/1" "ipfs://base" None (Some artAndLostMedia)
                      artToken)
     ++ [ProgressStop],
     Throw (Error "Input file is missing or of an unsupported image format"))%list.
Proof.
  apply (@buildMetadata_fail_fast example "build/1" "ipfs://base" None
           (Some artAndLostMedia) [artToken] lostToken [artToken]
           (Error "Input file is missing or of an unsupported image format")
           eq_refl).
  - constructor; [vm_compute; reflexivity | constructor].
  - vm_compute. reflexivity.
Defined.

(* ================================================================= *)
Lemma decimal_string_snoc (n d : N) :
  (1 <= n)%N -> (d < 10)%N ->
  decimal_string (10 * n + d) = decimal_string n ++ String (digit_char d) "".
Proof.
  intros Hn Hd.
  assert (Hf := decimal_fuel n).
  rewrite (@decimal_string_fuel (10 * n + d) (S (S (N.to_nat (N.log2 n))))).
  2: lia.
  2:{ rewrite Nat2N.inj_succ, N.pow_succ_r'. lia. }
  rewrite digits_of_S.
  replace ((10 * n + d) / 10)%N with n.
  2:{ symmetry. rewrite N.mul_comm. rewrite N.div_add_l by lia.
      rewrite N.div_small by exact Hd. lia. }
  replace ((10 * n + d) mod 10)%N with d.
  2:{ symmetry. rewrite N.add_comm, N.mul_comm, N.Div0.mod_add.
      apply N.mod_small. exact Hd. }
  replace (n =? 0)%N with false by (symmetry; apply N.eqb_neq; lia).
  rewrite digits_of_acc. reflexivity.
Qed.

Lemma digit_inv c :
  digit c = true -> (digit_value c < 10)%N /\ digit_char (digit_value c) = c.
Proof.
  unfold digit, in_range, digit_value, digit_char. intros H.
  apply andb_true_iff in H as (H1 & H2).
  apply Nat.leb_le in H1, H2. change (nat_of_ascii "0") with 48 in H1.
  change (nat_of_ascii "9") with 57 in H2.
  unfold nat_of_ascii in H1, H2.
  assert (Hc : (48 <= N_of_ascii c <= 57)%N) by lia.
  split; [lia|].
  replace (48 + (N_of_ascii c - 48))%N with (N_of_ascii c) by lia.
  apply ascii_N_embedding.
Qed.

Lemma decimal_string_from s : forall acc,
  (1 <= acc)%N -> forall_chars digit s = true ->
  decimal_string (decimal_value_from acc s) = decimal_string acc ++ s
  /\ (1 <= decimal_value_from acc s)%N.
Proof.
  induction s as [|c s IH]; intros acc Hacc Hs; cbn [decimal_value_from].
  - now rewrite append_nil_r.
  - simpl in Hs. apply andb_true_iff in Hs as (Hc & Hs).
    destruct (digit_inv _ Hc) as (Hlt & Hch).
    destruct (IH (10 * acc + digit_value c)%N ltac:(lia) Hs) as (E & Hge).
    split; [|exact Hge].
    rewrite E, decimal_string_snoc, Hch, append_assoc by assumption.
    reflexivity.
Qed.

(** A canonical numeral is the numeral of its value. *)
Lemma decimal_string_canonical ds :
  canonical ds = true -> decimal_string (decimal_value ds) = ds.
Proof.
  unfold canonical. intros H. apply andb_true_iff in H as (Hd & Hz).
  destruct ds as [|c s]; [discriminate|].
  simpl in Hd. apply andb_true_iff in Hd as (Hc & Hs).
  destruct (digit_inv _ Hc) as (Hlt & Hch).
  unfold decimal_value. cbn [decimal_value_from].
  replace (10 * 0 + digit_value c)%N with (digit_value c) by lia.
  assert (Hone : decimal_string (digit_value c) = String c "").
  { rewrite (@decimal_string_fuel (digit_value c) 1) by (try lia; exact Hlt).
    rewrite digits_of_S.
    rewrite N.div_small, N.mod_small by exact Hlt. cbn. now rewrite Hch. }
  destruct s as [|c' s'].
  - exact Hone.
  - assert (Hnz : (1 <= digit_value c)%N).
    { apply negb_true_iff in Hz. apply Ascii.eqb_neq in Hz.
      destruct (N.eq_dec (digit_value c) 0) as [E0|]; [|lia].
      exfalso. apply Hz. rewrite <- Hch, E0. reflexivity. }
    destruct (@decimal_string_from (String c' s') _ Hnz Hs) as (E & _).
    rewrite E, Hone. reflexivity.
Qed.

Section RoundTrip.
Variable P : Platform.

Lemma classify_Valid_index dir f token ds :
  classify P dir f = Valid token ->
  tokenMetadataName (path_basename P (resolve P dir f)) ds ->
  token_index token = number_of_Z (Z.of_N (decimal_value ds))
  /\ truthy (get_opt (token_metadata token) "name") = true.
Proof.
  unfold classify. intros H Hname.
  destruct (exec tokenMetadataNamePattern _) as [info|] eqn:Ex; [|discriminate].
  destruct (readFile P _) as [data|]; [|discriminate].
  destruct (JSON_parse P _) as [metadata|]; [|discriminate].
  destruct (truthy (get_opt metadata "name")) eqn:Tn; [|discriminate].
  destruct (truthy (get_opt metadata "image")); [|discriminate].
  injection H as <-. cbn.
  apply exec_token_sound in Ex as (ds0 & Hn & ->).
  rewrite (tokenMetadataName_unique Hn Hname). cbn. unfold js_Number.
  destruct Hname as (_ & -> & _). split; [reflexivity | exact Tn].
Qed.

(** X11.  The output file of a token is named by the value of the digits
    of its input file, for values up to 2^53: the base name of the input
    file when the digits are a numeral without leading zeros; digits with
    leading zeros lose them, and two input files whose digits have the
    same value are written to one output file. *)
Theorem output_name dir f token ds outputDir :
  classify P dir f = Valid token ->
  tokenMetadataName (path_basename P (resolve P dir f)) ds ->
  (decimal_value ds <= 2 ^ 53)%N ->
  outputFile P outputDir token
  = resolve P outputDir (decimal_string (decimal_value ds) ++ ".json")
  /\ (canonical ds = true ->
      outputFile P outputDir token
      = resolve P outputDir (path_basename P (resolve P dir f)))
  /\ (forall dir' f' token' ds',
        classify P dir' f' = Valid token' ->
        tokenMetadataName (path_basename P (resolve P dir' f')) ds' ->
        decimal_value ds' = decimal_value ds ->
        outputFile P outputDir token' = outputFile P outputDir token).
Proof.
  intros Hc Hname Hle.
  destruct (classify_Valid_index _ _ Hc Hname) as (Hidx & _).
  assert (E : outputFile P outputDir token
              = resolve P outputDir (decimal_string (decimal_value ds) ++ ".json")).
  { unfold outputFile. rewrite Hidx, Number_toString_number_of_Z, N2Z.id.
    - reflexivity.
    - change (2 ^ 53)%Z with (Z.of_N (2 ^ 53)). lia. }
  split; [exact E|]. split.
  - intros Hcan. rewrite E, (decimal_string_canonical _ Hcan).
    destruct Hname as (_ & _ & ->). reflexivity.
  - intros dir' f' token' ds' Hc' Hname' Hv.
    destruct (classify_Valid_index _ _ Hc' Hname') as (Hidx' & _).
    unfold outputFile. now rewrite Hidx, Hidx', Hv.
Qed.

Lemma mapM_throw {A B} (f : A -> M B) (l : list A) e :
  outcome (mapM f l) = Throw e ->
  exists a, In a l /\ outcome (f a) = Throw e.
Proof.
  induction l as [|a l IH]; [discriminate|]. cbn [mapM].
  destruct (f a) as [t1 [b|e1]] eqn:Ea.
  - unfold bind at 1. destruct (mapM f l) as [t2 [bs|e2]]; [discriminate|].
    cbn. intros H. injection H as <-.
    destruct (IH eq_refl) as (a' & Hin & Ha'). exists a'. split; [now right | exact Ha'].
  - cbn. intros H. injection H as <-. exists a. split; [now left|].
    now rewrite Ea.
Qed.

Lemma truthy_get v key : truthy (get_opt v key) = true -> exists fields, v = VObj fields.
Proof. destruct v; try discriminate. eauto. Qed.

(** X12.  From the scan to the assembler.  For a token that the metadata
    scan returned, reading [name] and [description] cannot throw: the
    object built for it has the truthy [name] and the [description] of the
    parsed metadata, [undefined] when there is none; and when the assembly
    fails the error is that of the attributes or that of the descriptor of
    an image record of the token's index. *)
Theorem scanned_token_assembly dir t tokens token baseUri links mediaFiles :
  readMetadataDir P dir = (t, Ok tokens) ->
  In token tokens ->
  (forall t' metadata,
     tokenMetadata P baseUri links mediaFiles token = (t', Ok metadata) ->
     lsp4_name metadata = get_opt (token_metadata token) "name"
     /\ truthy (lsp4_name metadata) = true
     /\ lsp4_description metadata = get_opt (token_metadata token) "description")
  /\ (forall e,
        outcome (tokenMetadata P baseUri links mediaFiles token) = Throw e ->
        outcome (mapAttributes (token_metadata token)) = Throw e
        \/ exists files info,
             mediaFiles = Some files /\ In info files
             /\ matches token image info = true
             /\ outcome (buildFileInfo P info baseUri) = Throw e).
Proof.
  intros Hscan Hin.
  assert (Hobj : exists fields, token_metadata token = VObj fields
                                /\ truthy (lookup "name" fields) = true).
  { destruct (@readMetadataDir_returns P _ _ _ Hscan) as (files & _ & _ & _ & ->).
    apply in_flat_map in Hin as (f & Hf & Hin).
    destruct (classify P dir f) as [| | |token'] eqn:Ec; simpl in Hin;
      try contradiction.
    destruct Hin as [<-|[]].
    unfold classify in Ec.
    destruct (exec tokenMetadataNamePattern _) as [info|]; [|discriminate].
    destruct (readFile P _) as [data|]; [|discriminate].
    destruct (JSON_parse P _) as [metadata|]; [|discriminate].
    destruct (truthy (get_opt metadata "name")) eqn:Tn; [|discriminate].
    destruct (truthy (get_opt metadata "image")); [|discriminate].
    injection Ec as <-. cbn.
    destruct (truthy_get _ _ Tn) as (fields & ->). exists fields. auto. }
  destruct Hobj as (fields & Hm & Hname).
  split.
  - intros t' metadata H.
    apply tokenMetadata_ok in H
      as (t1 & t2 & attributes & images & name & description
          & _ & _ & Hn & Hd & ->).
    rewrite Hm in *. cbn in Hn, Hd. injection Hn as <-. injection Hd as <-.
    cbn. auto.
  - intros e. unfold tokenMetadata. cbv zeta.
    destruct (mapAttributes (token_metadata token)) as [t1 [attributes|e1]].
    2:{ cbn. intros H. left. now injection H as <-. }
    unfold bind at 1. rewrite icon_step. unfold bind at 1.
    destruct mediaFiles as [files|].
    + destruct (mapM (fun info => buildFileInfo P info baseUri)
                     (filter (matches token image) files))
        as [t2 [built|e2]] eqn:Eb.
      * rewrite Hm. cbn. discriminate.
      * cbn. intros H. injection H as <-. right.
        destruct (@mapM_throw _ _ (fun info => buildFileInfo P info baseUri)
                    (filter (matches token image) files) e2) as (info & Hi & He).
        { now rewrite Eb. }
        apply filter_In in Hi as (Hi & Hmatch). exists files, info. auto.
    + rewrite Hm. cbn. discriminate.
Qed.

End RoundTrip.

Lemma output_name_witness :
  outputFile example "build/1" artToken = "build/1/1.json".
Proof.
  refine (proj1 (@output_name example "metadata" "1.json" artToken "1" "build/1"
                   _ _ _)).
  - vm_compute. reflexivity.
  - split; [discriminate|]. split; reflexivity.
  - vm_compute. discriminate.
Defined.

Lemma scanned_token_assembly_witness :
  match outcome (tokenMetadata example "ipfs://base" None (Some artMedia) artToken) with
  | Ok metadata => lsp4_name metadata = VStr "Token 1"
  | Throw _ => False
  end.
Proof.
  destruct (@scanned_token_assembly example "metadata"
              [missingWarning example "metadata" "2.json";
               missingWarning example "metadata" "3.json"]
              [artToken] artToken "ipfs://base" None (Some artMedia))
    as (Hok & _).
  - vm_compute. reflexivity.
  - left. reflexivity.
  - destruct (tokenMetadata example "ipfs://base" None (Some artMedia) artToken)
      as [t [metadata|e]] eqn:E.
    + destruct (Hok t metadata eq_refl) as (Hname & _). exact Hname.
    + vm_compute in E. discriminate.
Defined.

(* ================================================================= *)
(** ** The join of tokens and media *)

(** The values of [number_of_Z] on the integers from 0 to 2^53. *)
Lemma number_of_Z_form z :
  (0 <= z <= 2 ^ 53)%Z ->
  number_of_Z z = S754_zero false
  \/ exists m e, number_of_Z z = S754_finite false m e.
Proof.
  intros Hz. destruct (Z.eq_dec z (2 ^ 53)) as [->|Hne].
  - right. vm_compute. eauto.
  - destruct z as [|m|m]; [now left | | lia].
    right. destruct (@number_of_Z_shape m ltac:(lia)) as (mz & e & E & _).
    eauto.
Qed.

Lemma number_eqb_finite m1 e1 m2 e2 :
  number_eqb (S754_finite false m1 e1) (S754_finite false m2 e2) = true
  <-> m1 = m2 /\ e1 = e2.
Proof.
  unfold number_eqb, SFeqb, SFcompare.
  destruct (Z.compare e1 e2) eqn:Ee.
  - apply Z.compare_eq in Ee. subst e2.
    change (Pos.compare_cont Eq m1 m2) with (Pos.compare m1 m2).
    destruct (Pos.compare m1 m2) eqn:Em.
    + apply Pos.compare_eq in Em. subst m2. tauto.
    + split; [discriminate|]. intros (-> & _).
      rewrite Pos.compare_refl in Em. discriminate.
    + split; [discriminate|]. intros (-> & _).
      rewrite Pos.compare_refl in Em. discriminate.
  - split; [discriminate|]. intros (_ & ->).
    rewrite Z.compare_refl in Ee. discriminate.
  - split; [discriminate|]. intros (_ & ->).
    rewrite Z.compare_refl in Ee. discriminate.
Qed.

(** On the integers up to 2^53, [===] on the numbers is equality of the
    integers. *)
Lemma number_eqb_number_of_Z z1 z2 :
  (0 <= z1 <= 2 ^ 53)%Z -> (0 <= z2 <= 2 ^ 53)%Z ->
  number_eqb (number_of_Z z1) (number_of_Z z2) = true <-> z1 = z2.
Proof.
  intros H1 H2.
  assert (E1 := number_of_Z_exact H1). assert (E2 := number_of_Z_exact H2).
  destruct (number_of_Z_form H1) as [F1|(m1 & e1 & F1)];
    destruct (number_of_Z_form H2) as [F2|(m2 & e2 & F2)];
    rewrite F1, F2 in *.
  - split; [|reflexivity]. intros _. cbn in E1, E2. congruence.
  - split; [discriminate|]. intros ->. rewrite F1 in F2. discriminate.
  - split; [discriminate|]. intros ->. rewrite F1 in F2. discriminate.
  - rewrite number_eqb_finite. split.
    + intros (-> & ->). congruence.
    + intros ->. rewrite F1 in F2. now injection F2 as -> ->.
Qed.

Lemma MediaCategory_eqb_eq a b : MediaCategory_eqb a b = true <-> a = b.
Proof. destruct a, b; simpl; split; congruence. Qed.

(** X13.  Media are joined to a token on the value of the digits, not on
    the digits: for digit strings of value up to 2^53, a record matches a
    token in a category exactly when it has that category and its digits
    have the value of the token's, so that image-007.png goes with
    7.json. *)
Theorem matches_by_value token category info dt dm :
  token_index token = js_Number dt ->
  media_index info = js_Number dm ->
  forall_chars digit dt = true -> forall_chars digit dm = true ->
  (decimal_value dt <= 2 ^ 53)%N -> (decimal_value dm <= 2 ^ 53)%N ->
  matches token category info = true
  <-> media_category info = category /\ decimal_value dm = decimal_value dt.
Proof.
  intros Ht Hm Dt Dm Lt Lm. unfold matches. rewrite Ht, Hm.
  unfold js_Number. rewrite Dt, Dm.
  rewrite andb_true_iff, MediaCategory_eqb_eq, number_eqb_number_of_Z.
  - split; intros (H1 & H2); split; try assumption; lia.
  - change (2 ^ 53)%Z with (Z.of_N (2 ^ 53)). lia.
  - change (2 ^ 53)%Z with (Z.of_N (2 ^ 53)). lia.
Qed.

Lemma matches_by_value_witness :
  matches artToken image
    {| media_file := "art/image-001.png"; media_category := image;
       media_index := js_Number "001"; media_extension := "png" |} = true.
Proof.
  apply (proj2 (@matches_by_value artToken image
                  {| media_file := "art/image-001.png"; media_category := image;
                     media_index := js_Number "001"; media_extension := "png" |}
                  "1" "001" eq_refl eq_refl eq_refl eq_refl
                  ltac:(vm_compute; discriminate) ltac:(vm_compute; discriminate))).
  split; reflexivity.
Defined.

(* ================================================================= *)
(** ** The validator and [trim] *)

Lemma containsUri_of_accepted s :
  validateBaseUri (VStr s) = Accepted -> containsUri s.
Proof.
  unfold validateBaseUri, IpfsUrl. intros H. apply exec_uri_iff.
  destruct (exec uriPattern s); [discriminate | discriminate H].
Qed.

Lemma accepted_of_containsUri s :
  containsUri s -> validateBaseUri (VStr s) = Accepted.
Proof.
  unfold validateBaseUri, IpfsUrl. intros H. apply exec_uri_iff in H.
  destruct (exec uriPattern s); [reflexivity | congruence].
Qed.

(** X14.  An accepted base URI has at least 53 characters, the scheme
    token and the shortest address, and a string of that length is
    accepted. *)
Theorem accepted_length s :
  validateBaseUri (VStr s) = Accepted ->
  53 <= String.length s
  /\ exists s0, String.length s0 = 53 /\ validateBaseUri (VStr s0) = Accepted.
Proof.
  intros H. split.
  - apply containsUri_of_accepted in H
      as (pre & u & post & -> & addr & -> & prefix & least & class & w
          & Hin & -> & Hlen & _).
    rewrite !length_append.
    simpl in Hin.
    destruct Hin as [E|[E|[E|[E|[E|[]]]]]]; injection E as <- <- <-;
      cbn [String.length]; lia.
  - exists ("ipfs://Qm" ++ "11111111111111111111111111111111111111111111").
    split; vm_compute; reflexivity.
Qed.

Lemma class_not_whitespace c :
  base58 c || base32 c || base32upper c || base16upper c = true ->
  whitespace c = false.
Proof.
  destruct c as [[] [] [] [] [] [] [] []]; vm_compute; intros H;
    (reflexivity || discriminate H).
Qed.

Lemma format_class prefix least class c :
  In (prefix, least, class) addressFormats -> class c = true ->
  whitespace c = false.
Proof.
  intros Hin Hc. apply class_not_whitespace. simpl in Hin.
  destruct Hin as [E|[E|[E|[E|[E|[]]]]]]; injection E as <- <- <-;
    rewrite Hc, ?orb_true_r; reflexivity.
Qed.

Lemma string_last s :
  s <> "" -> exists s' c, s = s' ++ String c "".
Proof.
  induction s as [|a s IH]; [congruence|]. intros _.
  destruct s as [|b s].
  - exists "", a. reflexivity.
  - destruct (IH ltac:(discriminate)) as (s' & c & E).
    exists (String a s'), c. simpl. now rewrite <- E.
Qed.

Lemma forall_chars_last p s c :
  forall_chars p (s ++ String c "") = true -> p c = true.
Proof.
  induction s as [|a s IH]; simpl; intros H.
  - now apply andb_true_iff in H as (H & _).
  - apply andb_true_iff in H as (_ & H). now apply IH.
Qed.

Lemma trimStart_keeps c u rest : forall pre,
  whitespace c = false ->
  exists pre', trimStart (pre ++ String c u ++ rest) = pre' ++ String c u ++ rest.
Proof.
  induction pre as [|a pre IH]; intros Hc.
  - exists "". cbn. now rewrite Hc.
  - cbn. destruct (whitespace a).
    + exact (IH Hc).
    + exists (String a pre). reflexivity.
Qed.

Lemma trimEnd_keeps c rest : forall x,
  whitespace c = false ->
  trimEnd (x ++ String c rest) = x ++ String c (trimEnd rest).
Proof.
  induction x as [|a x IH]; intros Hc.
  - cbn. destruct (trimEnd rest); [now rewrite Hc | reflexivity].
  - cbn [append trimEnd]. rewrite (IH Hc).
    destruct x; reflexivity.
Qed.

(** A conforming string begins and ends with characters that [trim]
    keeps. *)
Lemma conformingUri_ends u :
  conformingUri u ->
  exists v c, "ipfs://" ++ v ++ String c "" = u /\ whitespace c = false.
Proof.
  intros (addr & -> & prefix & least & class & w & Hin & -> & Hlen & Hw).
  assert (Hne : w <> "").
  { intros ->. simpl in Hin.
    destruct Hin as [E|[E|[E|[E|[E|[]]]]]]; injection E as <- <- <-;
      simpl in Hlen; lia. }
  destruct (string_last Hne) as (w' & c & ->).
  exists (prefix ++ w'), c. split.
  - now rewrite append_assoc.
  - eapply format_class; [exact Hin|]. eapply forall_chars_last. exact Hw.
Qed.

Lemma containsUri_trim s : containsUri s -> containsUri (trim s).
Proof.
  intros (pre & u & post & -> & Hu).
  destruct (conformingUri_ends Hu) as (v & c & <- & Hc).
  destruct (@trimStart_keeps "i" ("pfs://" ++ v ++ String c "") post pre eq_refl)
    as (pre' & E).
  unfold trim. change ("ipfs://" ++ v ++ String c "")
    with (String "i" ("pfs://" ++ v ++ String c "")) in *.
  rewrite E.
  replace (pre' ++ String "i" ("pfs://" ++ v ++ String c "") ++ post)
    with ((pre' ++ "ipfs://" ++ v) ++ String c post).
  2:{ rewrite !append_assoc. cbn [append]. rewrite !append_assoc. reflexivity. }
  rewrite (@trimEnd_keeps c post _ Hc).
  exists pre', ("ipfs://" ++ v ++ String c ""), (trimEnd post). split.
  - rewrite !append_assoc. cbn [append]. rewrite ?append_assoc. reflexivity.
  - exact Hu.
Qed.

(** X15.  The command validates the base URI as it was typed and uses it
    trimmed: what it hands to the assembler still passes the validator. *)
Theorem trimmed_baseUri_valid s :
  validateBaseUri (VStr s) = Accepted ->
  validateBaseUri (VStr (trim s)) = Accepted.
Proof.
  intros H. apply accepted_of_containsUri, containsUri_trim.
  now apply containsUri_of_accepted.
Qed.

Lemma accepted_length_witness :
  53 <= String.length
          "ipfs://bafybeiesesamfxkgronf4pf4maauei6svfas4vvzlhm7o4kzwnvbb3h5i4".
Proof.
  refine (proj1 (@accepted_length
                   "ipfs://bafybeiesesamfxkgronf4pf4maauei6svfas4vvzlhm7o4kzwnvbb3h5i4"
                   _)).
  vm_compute. reflexivity.
Defined.

Lemma trimmed_baseUri_valid_witness :
  validateBaseUri (VStr (trim (answer_baseUri exampleAnswers))) = Accepted.
Proof.
  apply (@trimmed_baseUri_valid (answer_baseUri exampleAnswers)).
  vm_compute. reflexivity.
Defined.

(* ================================================================= *)
(** ** The command *)

Section CommandFacts.
Variable P : Platform.
Variable dirname : string.



Lemma forEach_metadata_console dir files : forall result,
  forallb isConsole (trace (forEach (readMetadataDir_file P dir) files result)) = true.
Proof.
  induction files as [|f files IH]; intros result; [reflexivity|].
  cbn [forEach]. rewrite readMetadataDir_file_classify.
  destruct (classify P dir f); cbn [bind]; try reflexivity.
  - specialize (IH result). destruct (forEach _ files result). exact IH.
  - specialize (IH result). destruct (forEach _ files result). exact IH.
  - specialize (IH (result ++ [token])%list).
    destruct (forEach _ files _). exact IH.
Qed.

Lemma readMetadataDir_console dir :
  forallb isConsole (trace (readMetadataDir P dir)) = true.
Proof.
  destruct (readdir P dir) as [files|e] eqn:Ed.
  - rewrite (@readMetadataDir_listing P dir files Ed).
    assert (H := forEach_metadata_console dir files []).
    destruct (forEach _ files []) as [t [tokens|e]]; cbn in *; [exact H|].
    rewrite forallb_app, H. reflexivity.
  - unfold readMetadataDir. rewrite Ed. reflexivity.
Qed.

Lemma parseMediaFile_console file :
  forallb isConsole (trace (parseMediaFile P file)) = true.
Proof.
  unfold parseMediaFile.
  destruct (exec mediaNamePattern (path_basename P file)) as [info|];
    [|reflexivity].
  destruct (group 1 info) as [c|].
  - destruct (MediaCategory_of_string c); reflexivity.
  - destruct (isImageTypeSupported _); reflexivity.
Qed.

Lemma readMediaDir_console dir :
  forallb isConsole (trace (readMediaDir P dir)) = true.
Proof.
  destruct (readdir P dir) as [files|e] eqn:Ed.
  - rewrite (@readMediaDir_listing P dir files Ed), forEach_media. cbn.
    unfold mediaWarnings. clear Ed.
    induction files as [|f files IH]; [reflexivity|].
    cbn [flat_map]. rewrite forallb_app, parseMediaFile_console. apply IH.
  - unfold readMediaDir. rewrite Ed. reflexivity.
Qed.

Lemma console_not_write t file data :
  forallb isConsole t = true -> ~ In (WriteFile file data) t.
Proof.
  intros H Hin. rewrite forallb_forall in H. specialize (H _ Hin). discriminate.
Qed.

Lemma in_map_Event ev t : In (Event ev) (map Event t) <-> In ev t.
Proof.
  rewrite in_map_iff. split.
  - intros (x & E & Hin). now injection E as ->.
  - intros H. eauto.
Qed.

Lemma not_in_map_Event text t : ~ In (ConsoleLog text) (map Event t).
Proof. rewrite in_map_iff. intros (x & E & _). discriminate. Qed.

(** The tokens written by a loop are a prefix of its tokens. *)
Lemma forEach_tokens_prefix outputDir baseUri links mediaFiles tokens :
  exists written rest,
    tokens = (written ++ rest)%list
    /\ Forall (fun token =>
                 outcome (buildMetadata_token P outputDir baseUri links mediaFiles
                                              token tt) = Ok tt) written
    /\ trace (forEach (buildMetadata_token P outputDir baseUri links mediaFiles)
                      tokens tt)
       = flat_map (outputEvents P outputDir baseUri links mediaFiles) written.
Proof.
  induction tokens as [|token tokens (written & rest & E & Hw & Ht)].
  - exists [], []. repeat split. constructor.
  - destruct (outcome (buildMetadata_token P outputDir baseUri links mediaFiles
                                           token tt)) as [[]|e] eqn:Eo.
    + exists (token :: written), rest. split; [now rewrite E|].
      split; [now constructor|].
      cbn [forEach flat_map]. rewrite (buildMetadata_token_ok _ _ _ _ _ _ Eo).
      cbn [bind]. destruct (forEach _ tokens tt) as [t r]. cbn in *. now rewrite Ht.
    + exists [], (token :: tokens). split; [reflexivity|]. split; [constructor|].
      cbn [forEach flat_map]. rewrite (buildMetadata_token_throw _ _ _ _ _ _ Eo).
      reflexivity.
Qed.

Lemma buildMetadata_writes outputDir baseUri links tokens mediaFiles file data :
  In (WriteFile file data)
     (trace (buildMetadata P outputDir baseUri links (Some tokens) mediaFiles)) ->
  exists token metadata,
    In token tokens
    /\ tokenMetadata P baseUri links mediaFiles token = ([], Ok metadata)
    /\ file = outputFile P outputDir token
    /\ data = JSON_stringify P (value_of_metadata metadata).
Proof.
  unfold buildMetadata.
  destruct (mkdir P outputDir) as [[]|e]; [|intros []].
  destruct (forEach_tokens_prefix outputDir baseUri links mediaFiles tokens)
    as (written & rest & E & Hw & Ht).
  destruct (forEach _ tokens tt) as [t r]. cbn in Ht. subst t. cbn.
  intros [H|[H|H]]; try discriminate.
  assert (H' : In (WriteFile file data)
                  (flat_map (outputEvents P outputDir baseUri links mediaFiles) written)).
  { destruct r; cbn in H; apply in_app_iff in H as [H|[H|[]]];
      try discriminate; exact H. }
  apply in_flat_map in H' as (token & Hin & Hev).
  rewrite Forall_forall in Hw. specialize (Hw token Hin).
  destruct Hev as [Hev|[Hev|[]]]; [|discriminate].
  injection Hev as <- <-.
  unfold buildMetadata_token in Hw. unfold outputData.
  assert (Htr := @tokenMetadata_trace P baseUri links mediaFiles token).
  destruct (tokenMetadata P baseUri links mediaFiles token)
    as [t0 [metadata|e]] eqn:Etm; [|discriminate].
  cbn in Htr. subst t0. exists token, metadata.
  split; [subst tokens; apply in_app_iff; now left|].
  split; [exact Etm|]. split; reflexivity.
Qed.

(** A token that the metadata scan returned holds an object with a truthy
    [name]. *)
Lemma scanned_token_named dir tokens token :
  outcome (readMetadataDir P dir) = Ok tokens ->
  In token tokens ->
  exists fields, token_metadata token = VObj fields
                 /\ truthy (lookup "name" fields) = true.
Proof.
  intros Hscan Hin.
  destruct (readMetadataDir P dir) as [t r] eqn:E. cbn in Hscan. subst r.
  destruct (@readMetadataDir_returns P _ _ _ E) as (files & _ & _ & _ & ->).
  apply in_flat_map in Hin as (f & Hf & Hin).
  destruct (classify P dir f) as [| | |token'] eqn:Ec; simpl in Hin;
    try contradiction.
  destruct Hin as [<-|[]].
  unfold classify in Ec.
  destruct (exec tokenMetadataNamePattern _) as [info|]; [|discriminate].
  destruct (readFile P _) as [data|]; [|discriminate].
  destruct (JSON_parse P _) as [metadata|]; [|discriminate].
  destruct (truthy (get_opt metadata "name")) eqn:Tn; [|discriminate].
  destruct (truthy (get_opt metadata "image")); [|discriminate].
  injection Ec as <-. cbn.
  destruct (truthy_get _ _ Tn) as (fields & ->). exists fields. auto.
Qed.

Lemma not_log_in_events text t : In (ConsoleLog text) (map Event t) <-> False.
Proof. split; [apply not_in_map_Event | tauto]. Qed.

Lemma not_error_in_events text t : In (ConsoleErrorText text) (map Event t) <-> False.
Proof.
  split; [|tauto]. rewrite in_map_iff. intros (x & E & _). discriminate.
Qed.


Ltac cases_member H :=
  repeat (first [ progress (cbn [In app fst snd trace] in H;
                            rewrite ?in_app_iff, ?not_log_in_events,
                                    ?not_error_in_events, ?in_map_Event in H)
                | destruct H as [H|H] ]);
  try discriminate; try contradiction.

Ltac no_member H := exfalso; cases_member H.




(** X18.  Every file that a run of the command writes is the object of a
    token of the metadata scan: it is written under the run's output
    directory at the token's index, and it holds the token's truthy name,
    no icon, one group of images, and the links that were entered, trimmed
    and in the order of entry. *)
Theorem invoke_writes a file data :
  In (Event (WriteFile file data)) (fst (generateMetadata_invoke P dirname a)) ->
  exists tokens mediaFiles token metadata built,
    outcome (readMetadataDir P (trim (answer_metadataDir a))) = Ok tokens
    /\ outcome (readMediaDir P (trim (answer_mediaDir a))) = Ok mediaFiles
    /\ In token tokens
    /\ outcome (tokenMetadata P (trim (answer_baseUri a)) (Some (linksOf a))
                              (Some mediaFiles) token) = Ok metadata
    /\ file = outputFile P (outputDirOf P dirname a) token
    /\ data = JSON_stringify P (value_of_metadata metadata)
    /\ truthy (lsp4_name metadata) = true
    /\ lsp4_icon metadata = None
    /\ lsp4_images metadata = Some [built]
    /\ lsp4_links metadata
       = Some (map (fun l => {| link_title := trim (fst l);
                                link_url := trim (snd l) |})
                   (answer_links a)).
Proof.
  unfold generateMetadata_invoke. cbv zeta.
  destruct (didUploadToIpfs a); [|intros H; no_member H].
  cbn [negb].
  assert (C1 := readMetadataDir_console (trim (answer_metadataDir a))).
  assert (C2 := readMediaDir_console (trim (answer_mediaDir a))).
  assert (N := @scanned_token_named (trim (answer_metadataDir a))).
  destruct (readMetadataDir P (trim (answer_metadataDir a))) as [t1 [tokens|e1]].
  2:{ cbn. intros H.
      cases_member H.
      exfalso. exact (@console_not_write _ _ _ C1 H). }
  destruct (readMediaDir P (trim (answer_mediaDir a))) as [t2 [mediaFiles|e2]].
  2:{ cbn. intros H.
      cases_member H.
      - exfalso. exact (@console_not_write _ _ _ C1 H).
      - exfalso. exact (@console_not_write _ _ _ C2 H). }
  cbn -[buildMetadata].
  assert (W := @buildMetadata_writes (outputDirOf P dirname a)
                 (trim (answer_baseUri a)) (Some (linksOf a)) tokens
                 (Some mediaFiles) file data).
  destruct (buildMetadata P (outputDirOf P dirname a) (trim (answer_baseUri a))
              (Some (linksOf a)) (Some tokens) (Some mediaFiles)) as [t3 r3].
  cbn [trace fst] in W, C1, C2.
  intros H.
  assert (H3 : In (WriteFile file data) t3).
  { destruct r3 as [[]|e3]; cases_member H;
        try exact H;
        exfalso; (exact (@console_not_write _ _ _ C1 H)
                  || exact (@console_not_write _ _ _ C2 H)). }
  destruct (W H3) as (token & metadata & Hin & Htm & -> & ->).
  destruct (N tokens token eq_refl Hin) as (fields & Hobj & Hname).
  destruct (@tokenMetadata_ok P _ _ _ _ _ _ Htm)
    as (ta & tb & attributes & images & name & description
        & _ & Himg & Hn & _ & Hmd).
  cbn [bind] in Himg.
  destruct (mapM _ _) as [tc [built|ec]]; [|discriminate].
  cbn in Himg. injection Himg as _ <-.
  rewrite Hobj in Hn. cbn in Hn. injection Hn as <-.
  exists tokens, mediaFiles, token, metadata, built.
  rewrite Htm, Hmd. cbn. repeat split; assumption.
Qed.

End CommandFacts.


Lemma invoke_writes_witness :
  exists metadata,
    truthy (lsp4_name metadata) = true
    /\ lsp4_links metadata
       = Some [ {| link_title := "Twitter";
                   link_url := "https://twitter.com/_universalpage" |} ].
Proof.
  destruct (@invoke_writes example "/cli/dist" exampleAnswers
              (outputFile example (outputDirOf example "/cli/dist" exampleAnswers)
                          artToken)
              (outputData example (trim (answer_baseUri exampleAnswers))
                          (Some (linksOf exampleAnswers)) (Some artMedia) artToken))
    as (tokens & mediaFiles & token & metadata & built & _ & _ & _ & _ & _ & _
        & Hname & _ & _ & Hlinks).
  - vm_compute. repeat (first [left; reflexivity | right]).
  - exists metadata. split; [exact Hname | exact Hlinks].
Defined.

(* ================================================================= *)
(** ** The shell *)

Section ShellFacts.
Variable P : Platform.
Variable dirname : string.
Variable banner : string.

Lemma generateMetadata_invoke_completes a :
  snd (generateMetadata_invoke P dirname a) = Returned tt.
Proof.
  unfold generateMetadata_invoke. cbv zeta.
  destruct (didUploadToIpfs a); [|reflexivity].
  destruct (readMetadataDir P _) as [t1 [tokens|e1]]; [|reflexivity].
  destruct (readMediaDir P _) as [t2 [mediaFiles|e2]]; [|reflexivity].
  cbn -[buildMetadata].
  destruct (buildMetadata P _ _ _ _ _) as [t3 [[]|e3]]; reflexivity.
Qed.

(** What the table holds under a name. *)
Lemma commands_cases name :
  (name = "help" /\ commands P dirname name = Own (help))
  \/ (name = "quit" /\ commands P dirname name = Own quit)
  \/ (name = "generate metadata"
      /\ commands P dirname name = Own (generateMetadata P dirname))
  \/ (In name objectPrototypeNames /\ commands P dirname name = Inherited)
  \/ (keepsRunning name = true /\ commands P dirname name = Undefined).
Proof.
  unfold commands, keepsRunning. cbn [find command_name help quit generateMetadata].
  destruct (String.eqb_spec name "help") as [->|_]; [now left|].
  destruct (String.eqb_spec name "quit") as [->|_]; [right; now left|].
  destruct (String.eqb_spec name "generate metadata") as [->|_];
    [right; right; now left|].
  destruct (existsb (String.eqb name) objectPrototypeNames) eqn:E.
  - right. right. right. left. split; [|reflexivity].
    apply existsb_exists in E as (x & Hin & Hx).
    apply String.eqb_eq in Hx. now subst x.
  - right. right. right. right. split; reflexivity.
Qed.

Lemma inherited_commands name :
  In name objectPrototypeNames -> commands P dirname name = Inherited.
Proof.
  intros H. simpl in H.
  repeat (destruct H as [<-|H]; [reflexivity|]). contradiction.
Qed.

(** A command other than [quit] returns to the loop. *)
Lemma command_returns name c a :
  commands P dirname name = Own c -> keepsRunning name = true ->
  snd (command_invoke c a) = Returned tt.
Proof.
  intros Hc Hk.
  destruct (commands_cases name)
    as [(-> & E)|[(-> & E)|[(-> & E)|[(_ & E)|(_ & E)]]]];
    rewrite E in Hc; try discriminate; injection Hc as <-.
  - reflexivity.
  - apply generateMetadata_invoke_completes.
Qed.

Lemma loop_app before : forall rest,
  forallb keepsRunning (map fst before) = true ->
  snd (loop P dirname before) = Pending
  /\ loop P dirname (before ++ rest)
     = ((fst (loop P dirname before) ++ fst (loop P dirname rest))%list,
        snd (loop P dirname rest)).
Proof.
  induction before as [|[name a] before IH]; intros rest Hk.
  - cbn. split; [reflexivity|]. now destruct (loop P dirname rest).
  - cbn [map fst forallb] in Hk. apply andb_true_iff in Hk as (Hn & Hk).
    destruct (IH rest Hk) as (Hp & Happ).
    cbn [loop app]. rewrite Happ.
    destruct (commands P dirname name) as [c| |] eqn:Ec.
    + assert (Hr := @command_returns name c a Ec Hn).
      destruct (command_invoke c a) as [t r]. cbn in Hr. subst r.
      cbn [andThen]. destruct (loop P dirname before) as [tb rb].
      cbn in Hp. subst rb. cbn. split; [reflexivity|].
      now rewrite app_assoc.
    + exfalso. destruct (commands_cases name)
        as [(-> & E)|[(-> & E)|[(-> & E)|[(Hin & E)|(_ & E)]]]];
        rewrite E in Ec; try discriminate.
      unfold keepsRunning in Hn. apply andb_true_iff in Hn as (_ & Hn).
      apply negb_true_iff in Hn.
      assert (existsb (String.eqb name) objectPrototypeNames = true).
      { apply existsb_exists. exists name. split; [exact Hin|].
        apply String.eqb_refl. }
      congruence.
    + split; [exact Hp | reflexivity].
Qed.

Lemma program_loop session :
  program P dirname banner session
  = match loop P dirname session with
    | (t, Returned _) =>
        (ConsoleLog banner :: fst (main P dirname []) ++ t, Exited 0)
    | (t, Rejected e) =>
        (ConsoleLog banner :: fst (main P dirname []) ++ t
           ++ [Event (ConsoleError e)], Exited 1)
    | (t, Exited code) =>
        (ConsoleLog banner :: fst (main P dirname []) ++ t, Exited code)
    | (t, Pending) =>
        (ConsoleLog banner :: fst (main P dirname []) ++ t, Pending)
    end%list.
Proof.
  unfold program, main.
  destruct (loop P dirname session) as [t [[]|e|code|]]; cbn;
    rewrite ?app_nil_r; reflexivity.
Qed.

(** X19.  A name that is neither a command nor inherited does nothing:
    the session goes on as if it had not been entered. *)
Theorem unknown_command_ignored before name a after :
  commands P dirname name = Undefined ->
  program P dirname banner (before ++ (name, a) :: after)
  = program P dirname banner (before ++ after).
Proof.
  intros Hu. rewrite !program_loop.
  replace (loop P dirname (before ++ (name, a) :: after))
    with (loop P dirname (before ++ after)); [reflexivity|].
  induction before as [|[n b] before IH]; cbn [app loop].
  - now rewrite Hu.
  - now rewrite IH.
Qed.

(** X20.  [quit] leaves the process with code 0 when it is reached: what
    was printed before stays, nothing entered after it is run. *)
Theorem quit_ends_session before a after :
  forallb keepsRunning (map fst before) = true ->
  program P dirname banner (before ++ ("quit", a) :: after)
  = (fst (program P dirname banner before), Exited 0).
Proof.
  intros Hk. rewrite !program_loop.
  destruct (@loop_app before (("quit", a) :: after) Hk) as (Hp & ->).
  destruct (loop P dirname before) as [tb rb]. cbn in Hp. subst rb.
  cbn. rewrite app_nil_r. reflexivity.
Qed.

(** X21.  A name that every object inherits, such as constructor or
    toString, is found in the table although it is no command: calling
    its [invoke] throws, the loop ends, the error is printed and the
    process is left with code 1. *)
Theorem inherited_name_exits before name a after :
  forallb keepsRunning (map fst before) = true ->
  In name objectPrototypeNames ->
  program P dirname banner (before ++ (name, a) :: after)
  = ((fst (program P dirname banner before)
      ++ [Event (ConsoleError (TypeError "command.invoke is not a function"))])%list,
     Exited 1).
Proof.
  intros Hk Hin. rewrite !program_loop.
  destruct (@loop_app before ((name, a) :: after) Hk) as (Hp & ->).
  cbn [loop]. rewrite (@inherited_commands name Hin).
  destruct (loop P dirname before) as [tb rb]. cbn in Hp. subst rb.
  cbn. rewrite app_nil_r. reflexivity.
Qed.

(** X22.  How a session ends.  The process is left only through [quit],
    with code 0, or through an inherited name, with code 1, whichever is
    entered first; as long as neither is entered the shell is at its
    prompt, whatever the commands that ran met. *)
Theorem session_status session :
  snd (program P dirname banner session)
  = match find (fun name => negb (keepsRunning name)) (map fst session) with
    | None => Pending
    | Some name => if String.eqb name "quit" then Exited 0 else Exited 1
    end.
Proof.
  rewrite program_loop.
  assert (H : snd (loop P dirname session)
              = match find (fun name => negb (keepsRunning name))
                           (map fst session) with
                | None => Pending
                | Some name =>
                    if String.eqb name "quit" then Exited 0
                    else Rejected (TypeError "command.invoke is not a function")
                end).
  { induction session as [|[name a] session IH]; [reflexivity|].
    cbn [map fst find loop].
    destruct (commands_cases name)
      as [(-> & E)|[(-> & E)|[(-> & E)|[(Hin & E)|(Hk & E)]]]]; rewrite E.
    - cbn. destruct (loop P dirname session). exact IH.
    - reflexivity.
    - change (keepsRunning "generate metadata") with true. cbn [negb].
      assert (Hr := generateMetadata_invoke_completes a).
      cbn [command_invoke generateMetadata].
      destruct (generateMetadata_invoke P dirname a) as [t r]. cbn in Hr. subst r.
      cbn. destruct (loop P dirname session). exact IH.
    - assert (Hk : keepsRunning name = false).
      { unfold keepsRunning. apply andb_false_iff. right.
        apply negb_false_iff, existsb_exists. exists name.
        split; [exact Hin | apply String.eqb_refl]. }
      rewrite Hk. cbn [negb].
      destruct (String.eqb_spec name "quit") as [->|_]; [|reflexivity].
      exfalso. simpl in Hin.
      repeat (destruct Hin as [Hin|Hin]; [discriminate|]). contradiction.
    - rewrite Hk. cbn [negb]. exact IH. }
  destruct (loop P dirname session) as [t r]. cbn in H. subst r.
  destruct (find _ _) as [name|]; [|reflexivity].
  destruct (String.eqb name "quit"); reflexivity.
Qed.

End ShellFacts.

Lemma unknown_command_ignored_witness :
  program example "/cli/dist" "UniversalPage"
    [("help", exampleAnswers); ("Quit", exampleAnswers); ("quit", exampleAnswers)]
  = program example "/cli/dist" "UniversalPage"
      [("help", exampleAnswers); ("quit", exampleAnswers)].
Proof.
  apply (@unknown_command_ignored example "/cli/dist" "UniversalPage"
           [("help", exampleAnswers)] "Quit" exampleAnswers
           [("quit", exampleAnswers)]).
  reflexivity.
Defined.

Lemma quit_ends_session_witness :
  program example "/cli/dist" "UniversalPage"
    [("help", exampleAnswers); ("generate metadata", exampleAnswers);
     ("quit", exampleAnswers); ("help", exampleAnswers)]
  = (fst (program example "/cli/dist" "UniversalPage"
            [("help", exampleAnswers); ("generate metadata", exampleAnswers)]),
     Exited 0).
Proof.
  apply (@quit_ends_session example "/cli/dist" "UniversalPage"
           [("help", exampleAnswers); ("generate metadata", exampleAnswers)]
           exampleAnswers [("help", exampleAnswers)]).
  reflexivity.
Defined.

Lemma inherited_name_exits_witness :
  snd (program example "/cli/dist" "UniversalPage"
         [("help", exampleAnswers); ("constructor", exampleAnswers);
          ("quit", exampleAnswers)])
  = Exited 1.
Proof.
  refine (f_equal snd
            (@inherited_name_exits example "/cli/dist" "UniversalPage"
               [("help", exampleAnswers)] "constructor" exampleAnswers
               [("quit", exampleAnswers)] _ _)).
  - reflexivity.
  - left. reflexivity.
Defined.
